(** * MR Procedure map: route traversal, ETA schedule and selection state

    A shallow embedding of [src/mr_procedure.js] and the properties of
    its two cores: the ETA engine ([getLegTime],
    [buildTraversalSequence], [calculateETAs], [minutesToHHMM]) and the
    selection/highlight state machine ([showRoute], [highlightPoint],
    [renderPanel], [resetAll] and the click / prev / next handlers).

    Conventions of the embedding.
    - A JavaScript number that holds a non-negative integer is an [N]
      (minutes) or a [nat] (array indices).  The source computes on
      doubles; its arithmetic on such values is exact below 2^53.
    - A JavaScript string is a [string]; [undefined] / [null] where the
      source can see them is [None] of an [option].
    - The object [timeMatrix] is a finite map of finite maps: its own
      keys (checkpoint ids) and those of its rows.  [getLegTime] reads
      own keys only, which is what the source does for every id that
      names no member inherited from [Object.prototype]; module [Proto]
      has the read through the prototype chain, for every string.
    - The global variables and the part of the DOM the script writes are
      one record [State], threaded explicitly through every function. *)

From Stdlib Require Import ZArith NArith List String Ascii Bool Lia.
From Stdlib Require Import DecimalString DecimalN DecimalFacts.
From stdpp Require Import base strings gmap list.

Local Open Scope N_scope.

(** ** JavaScript built-ins used by the script *)

Module JS.

(** [!!s] for a string: only the empty string is falsy. *)
Definition truthy (s : string) : bool := negb (String.eqb s "").

(** [s.split(sep)] for a one-character separator. *)
Fixpoint split (sep : ascii) (s : string) : list string :=
  match s with
  | EmptyString => [EmptyString]
  | String c s' =>
      if Ascii.eqb c sep then EmptyString :: split sep s'
      else match split sep s' with
           | piece :: rest => String c piece :: rest
           | [] => [String c EmptyString]
           end
  end.

(** [Number(v)], with [None] for [NaN].  [Number(undefined)] is [NaN],
    [Number("")] is 0 and a string of decimal digits is its value.
    Every other string is read as [NaN]: that is what JavaScript does
    for a string that is no numeric literal; the literals with a sign,
    a fraction, an exponent, a radix prefix or surrounding white
    space, which JavaScript does read, are outside this embedding. *)
Definition Number (v : option string) : option N :=
  s ← v; N.of_uint <$> NilEmpty.uint_of_string s.

(** [x || 0] on a number: [NaN] and 0 both give 0. *)
Definition orZero (x : option N) : N := default 0 x.

(** [String(n)] for a non-negative integer: its decimal digits. *)
Definition toString (n : N) : string := NilEmpty.string_of_uint (N.to_uint n).

(** The first [n] characters of [cur] followed by [pad] repeated. *)
Fixpoint filler (n : nat) (pad cur : string) : string :=
  match n with
  | O => EmptyString
  | S n' =>
      match cur with
      | String c cur' => String c (filler n' pad cur')
      | EmptyString =>
          match pad with
          | String c pad' => String c (filler n' pad pad')
          | EmptyString => EmptyString
          end
      end
  end.

(** [s.padStart(targetLength, padString)]. *)
Definition padStart (targetLength : nat) (padString s : string) : string :=
  if (targetLength <=? String.length s)%nat then s
  else filler (targetLength - String.length s) padString padString +:+ s.

(** [x.toFixed(2)] for [x = minutes / 60].  The quotient is never half
    way between two hundredths (5*minutes/3 has denominator 1 or 3),
    so the result is the nearest hundredth: [(10*minutes + 3) / 6]
    hundredths, printed with two decimals.  [toFixed] rounds the double
    that holds the quotient, which is within a sixth of a hundredth of
    the quotient for [minutes] below 2^49; this is its result there. *)
Definition toFixed2_div60 (minutes : N) : string :=
  let hundredths := (10 * minutes + 3) / 6 in
  toString (hundredths / 100) +:+ "." +:+
  padStart 2 "0" (toString (hundredths mod 100)).

End JS.

(** ** Data: routes and the time matrix *)

Module Checkpoint.
Record t := mk { id : string; title : string; objective : string; bullets : list string }.
End Checkpoint.

Module Route.
Record t := mk { id : string; name : string; color : string; points : list Checkpoint.t }.
End Route.

Definition routeA : Route.t :=
  Route.mk "routeA" "Route Alpha" "#06b6d4"
    [ Checkpoint.mk "P" "Checkpoint P" "Initial departure and perimeter securing."
        ["Conduct radar and visual sweep."; "Verify course alignment."; "Next point → Q"];
      Checkpoint.mk "Q" "Checkpoint Q" "Observation and tower verification."
        ["Take tower bearing and distance."; "Report position fix."; "Next point → R"];
      Checkpoint.mk "R" "Checkpoint R" "Resupply and comms verification."
        ["Reconfirm comms window."; "Verify resupply readiness."; "Next point → S"];
      Checkpoint.mk "S" "Checkpoint S" "Traffic corridor clearance."
        ["Coordinate safe passage."; "Log traffic movement."; "Next point → T"];
      Checkpoint.mk "T" "Checkpoint T" "High-point timing and mast observation."
        ["Take timing references."; "Confirm mast signals."; "Next point → U"];
      Checkpoint.mk "U" "Checkpoint U" "Outer perimeter scan."
        ["Record sector sweep."; "Validate safe-distance limits."; "Next point → S/P"];
      Checkpoint.mk "S/P" "Checkpoint S/P" "Final holding & route termination."
        ["Confirm return readiness."; "Record sortie completion."; "Next point → END"] ].

Definition routeB : Route.t :=
  Route.mk "routeB" "Route Bravo" "#7c3aed"
    [ Checkpoint.mk "S/P" "Checkpoint S/P" "Start point for Bravo route."
        ["Verify initial briefing."; "Log starting timestamp."; "Next point → P"];
      Checkpoint.mk "P" "Checkpoint P" "Rendezvous alignment."
        ["Confirm joining instructions."; "Match timing with Alpha unit if applicable."; "Next point → R"];
      Checkpoint.mk "R" "Checkpoint R" "Communications and logistics check."
        ["Validate resupply corridor."; "Check generator/aux systems."; "Next point → U"];
      Checkpoint.mk "U" "Checkpoint U" "Outer ring observation."
        ["Perform perimeter sweep."; "Log environmental conditions."; "Next point → T"];
      Checkpoint.mk "T" "Checkpoint T" "High tower monitor checkpoint."
        ["Record timing references."; "Monitor mast signatures."; "Next point → S"];
      Checkpoint.mk "S" "Checkpoint S" "Traffic corridor coordination."
        ["Clear corridor for movement."; "Coordinate with control tower."; "Next point → Q"];
      Checkpoint.mk "Q" "Checkpoint Q" "Final verification before termination."
        ["Fix final position."; "Log sortie closure."; "Next point → END"] ].

(** The catalog [routes]; [routes[0]] is [routeA]. *)
Definition routes : list Route.t := [routeA; routeB].

(** The time matrix, minutes keyed from -> to. *)
Definition timeMatrix : gmap string (gmap string N) :=
  list_to_map
    [ ("VOCC", list_to_map [("Q", 14); ("P", 12); ("S/P", 20)]);
      ("P",    list_to_map [("Q", 14); ("R", 9)]);
      ("Q",    list_to_map [("R", 12); ("S/P", 10)]);
      ("R",    list_to_map [("S", 11); ("U", 13)]);
      ("S",    list_to_map [("T", 9)]);
      ("T",    list_to_map [("U", 15)]);
      ("U",    list_to_map [("S/P", 8)]);
      ("S/P",  ∅) ].

(** ** Helpers *)

(** On [N]: this is the result of the source for [totalMinutes] below
    2^53, where [Math.floor(totalMinutes/60)] is the integer quotient
    and [String] prints plain decimal digits. *)
Definition minutesToHHMM (totalMinutes : N) : string :=
  let H := totalMinutes / 60 in
  let M := totalMinutes mod 60 in
  JS.padStart 2 "0" (JS.toString H) +:+ ":" +:+ JS.padStart 2 "0" (JS.toString M).

Definition formatHoursFromMinutes (minutes : N) : string :=
  JS.toFixed2_div60 minutes.

(** ** LegGraph: [getLegTime] *)

(** The directed entry a->b of the matrix: the own property [b] of the
    own property [a] of [timeMatrix].  For ids that name no inherited
    member this is what [timeMatrix[a] && typeof timeMatrix[a][b] ===
    "number"] finds, with the number when the test succeeds. *)
Definition entry (tm : gmap string (gmap string N)) (a b : string) : option N :=
  row ← tm !! a; row !! b.

(** [getLegTime] on the entries of the matrix.  [Proto.getLegTime]
    below follows the property reads of the source for every string;
    the two agree on all ids that name no inherited member. *)
Definition getLegTime (tm : gmap string (gmap string N)) (from to : string) : N :=
  if negb (JS.truthy from) || negb (JS.truthy to) then 0
  else match entry tm from to with
       | Some m => m
       | None =>
           match entry tm to from with
           | Some m => m
           | None => 0
           end
       end.

(** *** Property reads through the prototype chain *)

Module Proto.

(** [timeMatrix] and its rows are object literals.  A read [obj[k]] that
    finds no own property [k] goes on to [Object.prototype].  These are
    the function-valued members of [Object.prototype], each with the
    [length] the language gives the function; the one other member is
    the accessor [__proto__]. *)
Definition objectPrototypeFunctions : list (string * N) :=
  [ ("constructor", 1);
    ("hasOwnProperty", 1);
    ("isPrototypeOf", 1);
    ("propertyIsEnumerable", 1);
    ("toLocaleString", 0);
    ("toString", 0);
    ("valueOf", 0);
    ("__defineGetter__", 2);
    ("__defineSetter__", 2);
    ("__lookupGetter__", 1);
    ("__lookupSetter__", 1) ].

(** The [length] of the inherited function named [k], if [k] names one. *)
Definition inheritedFunction (k : string) : option N :=
  snd <$> find (fun m => String.eqb (fst m) k) objectPrototypeFunctions.

(** What [timeMatrix[k]] evaluates to. *)
Inductive Member :=
| Absent
| OwnRow (row : gmap string N)
| BuiltinFunction (arity : N)
| ObjectPrototype.

Definition member (tm : gmap string (gmap string N)) (k : string) : Member :=
  match tm !! k with
  | Some row => OwnRow row
  | None =>
      match inheritedFunction k with
      | Some arity => BuiltinFunction arity
      | None => if String.eqb k "__proto__" then ObjectPrototype else Absent
      end
  end.

(** The outcome of [timeMatrix[a] && typeof timeMatrix[a][b] === "number"]:
    the number read, no number, or a [TypeError]. *)
Inductive NumberTest :=
| IsNumber (n : N)
| NoNumber
| RaisesTypeError.

(** - [undefined] stops the [&&].
    - On a row, the own property is a number; what a row inherits is a
      function or an object.
    - On a built-in function, [length] is a number; [caller] and
      [arguments] are the accessors of [Function.prototype] that raise a
      [TypeError]; every other property ([name], [prototype], the
      methods, the inherited members) is no number or is missing.
    - [Object.prototype] has no number among its properties. *)
Definition numberTest (tm : gmap string (gmap string N)) (a b : string) : NumberTest :=
  match member tm a with
  | Absent => NoNumber
  | OwnRow row =>
      match row !! b with
      | Some n => IsNumber n
      | None => NoNumber
      end
  | BuiltinFunction arity =>
      if String.eqb b "length" then IsNumber arity
      else if String.eqb b "caller" || String.eqb b "arguments" then RaisesTypeError
      else NoNumber
  | ObjectPrototype => NoNumber
  end.

(** [getLegTime] with its reads as JavaScript performs them; [None] is
    the [TypeError]. *)
Definition getLegTime (tm : gmap string (gmap string N)) (from to : string) : option N :=
  if negb (JS.truthy from) || negb (JS.truthy to) then Some 0
  else match numberTest tm from to with
       | IsNumber n => Some n
       | RaisesTypeError => None
       | NoNumber =>
           match numberTest tm to from with
           | IsNumber n => Some n
           | RaisesTypeError => None
           | NoNumber => Some 0
           end
       end.

End Proto.

(** ** TraversalResolver: [buildTraversalSequence] *)

(** [arr.indexOf(x)]: the first position holding [x]; [None] for -1. *)
Fixpoint indexOf (x : string) (arr : list string) : option nat :=
  match arr with
  | [] => None
  | y :: arr' => if String.eqb y x then Some O else S <$> indexOf x arr'
  end.

(** The second loop of [buildTraversalSequence]: the first [i] with
    [getLegTime(startPoint, routePts[i]) > 0]. *)
Fixpoint firstReachable (tm : gmap string (gmap string N)) (startPoint : string)
    (routePts : list string) : option nat :=
  match routePts with
  | [] => None
  | p :: routePts' =>
      if 0 <? getLegTime tm startPoint p then Some O
      else S <$> firstReachable tm startPoint routePts'
  end.

(** [for (let i = idx; i < routePts.length; i++) seq.push(routePts[i])]
    on an empty [seq]. *)
Definition pushFrom (idx : nat) (routePts : list string) : list string :=
  drop idx routePts.

Definition buildTraversalSequence (tm : gmap string (gmap string N))
    (currentRoute : Route.t) (startPoint : string) : list string :=
  let routePts := map Checkpoint.id (Route.points currentRoute) in
  match indexOf startPoint routePts with
  | Some idx => pushFrom idx routePts
  | None =>
      match firstReachable tm startPoint routePts with
      | Some i => pushFrom i routePts
      | None => routePts
      end
  end.

(** ** ETACalculator: [calculateETAs] *)

Record LegRow := mkLegRow {
  legIndex : nat;
  from : string;
  to : string;
  legTimeMin : N;
  legTimeHrs : string;
  eta : string
}.

(** The array returned by [calculateETAs] with its two extra properties;
    [None] is a property that was never attached ([undefined]). *)
Record EtaRows := mkEtaRows {
  rows : list LegRow;
  totalMinutes : option N;
  finalEta : option string
}.

(** The local variables the two leg-emitting blocks update. *)
Record Acc := mkAcc {
  legCounter : nat;
  currentMinutes : N;
  totalMinutesAccum : N;
  accRows : list LegRow
}.

(** One emitted leg: the body shared by the special first leg and by the
    loop over the traversal. *)
Definition pushLeg (tm : gmap string (gmap string N)) (from to : string) (a : Acc) : Acc :=
  let legTime := getLegTime tm from to in
  let legCounter' := S (legCounter a) in
  let currentMinutes' := currentMinutes a + legTime in
  let totalMinutesAccum' := totalMinutesAccum a + legTime in
  mkAcc legCounter' currentMinutes' totalMinutesAccum'
    (accRows a ++ [mkLegRow legCounter' from to legTime
                     (formatHoursFromMinutes legTime)
                     (minutesToHHMM currentMinutes')]).

(** [for (let i = 0; i < routeSeq.length - 1; i++)] over adjacent pairs. *)
Fixpoint legsLoop (tm : gmap string (gmap string N)) (routeSeq : list string) (a : Acc) : Acc :=
  match routeSeq with
  | from :: ((to :: _) as rest) => legsLoop tm rest (pushLeg tm from to a)
  | _ => a
  end.

(** [(Number(hStr) || 0) * 60 + (Number(mStr) || 0)] after
    [const [hStr, mStr] = startTimeStr.split(":")]. *)
Definition parseStartMinutes (startTimeStr : string) : N :=
  let parts := JS.split ":" startTimeStr in
  let hStr := parts !! 0%nat in
  let mStr := parts !! 1%nat in
  JS.orZero (JS.Number hStr) * 60 + JS.orZero (JS.Number mStr).

(** The bare [rows] returned by the two early [return rows]. *)
Definition noRows : EtaRows := mkEtaRows [] None None.

(** [startTimeStr] is [None] when the argument is [undefined]. *)
Definition calculateETAs (tm : gmap string (gmap string N)) (currentRoute : Route.t)
    (startTimeStr : option string) (startPoint : string) : EtaRows :=
  match startTimeStr with
  | None => noRows
  | Some str =>
      if negb (JS.truthy str) then noRows
      else
        let startMinutes := parseStartMinutes str in
        let traversal := buildTraversalSequence tm currentRoute startPoint in
        match traversal with
        | [] => noRows
        | t0 :: _ =>
            let a0 := mkAcc 0 startMinutes 0 [] in
            let a1 := if negb (String.eqb startPoint t0)
                      then pushLeg tm startPoint t0 a0 else a0 in
            let a2 := legsLoop tm traversal a1 in
            mkEtaRows (accRows a2) (Some (totalMinutesAccum a2))
              (Some match last (accRows a2) with
                    | Some r => eta r
                    | None => minutesToHHMM startMinutes
                    end)
        end
  end.

(** ** SelectionController: the application state *)

(** A [.hotspot] element of [#hotspots]: its [data-id], the classes
    [selected] and [dim], the background of its [.dot] child ([None]
    when it has none) and the inline [opacity] and [z-index]. *)
Record Hotspot := mkHotspot {
  data_id : string;
  selected : bool;
  dim : bool;
  dot : option string;
  opacity : string;
  zIndex : string
}.

(** The four [let] globals of the script, then the DOM it writes: the
    hotspots in document order, the side panel, the two paging buttons,
    the options of [startPointSelect] and [aria-pressed] of the toggle. *)
Record State := mkState {
  currentRoute : Route.t;
  currentPointIndex : nat;
  activePointId : option string;
  pointsVisible : bool;
  hotspots : list Hotspot;
  panelTitle : string;
  panelSub : string;
  panelObjective : string;
  panelBullets : list string;
  prevDisabled : bool;
  nextDisabled : bool;
  startPointOptions : list (string * string);
  ariaPressed : string
}.

Definition setCurrentRoute (r : Route.t) (s : State) : State :=
  mkState r (currentPointIndex s) (activePointId s) (pointsVisible s) (hotspots s)
    (panelTitle s) (panelSub s) (panelObjective s) (panelBullets s)
    (prevDisabled s) (nextDisabled s) (startPointOptions s) (ariaPressed s).

Definition setCurrentPointIndex (i : nat) (s : State) : State :=
  mkState (currentRoute s) i (activePointId s) (pointsVisible s) (hotspots s)
    (panelTitle s) (panelSub s) (panelObjective s) (panelBullets s)
    (prevDisabled s) (nextDisabled s) (startPointOptions s) (ariaPressed s).

Definition setActivePointId (a : option string) (s : State) : State :=
  mkState (currentRoute s) (currentPointIndex s) a (pointsVisible s) (hotspots s)
    (panelTitle s) (panelSub s) (panelObjective s) (panelBullets s)
    (prevDisabled s) (nextDisabled s) (startPointOptions s) (ariaPressed s).

Definition setPointsVisible (v : bool) (s : State) : State :=
  mkState (currentRoute s) (currentPointIndex s) (activePointId s) v (hotspots s)
    (panelTitle s) (panelSub s) (panelObjective s) (panelBullets s)
    (prevDisabled s) (nextDisabled s) (startPointOptions s) (ariaPressed s).

Definition setHotspots (hs : list Hotspot) (s : State) : State :=
  mkState (currentRoute s) (currentPointIndex s) (activePointId s) (pointsVisible s) hs
    (panelTitle s) (panelSub s) (panelObjective s) (panelBullets s)
    (prevDisabled s) (nextDisabled s) (startPointOptions s) (ariaPressed s).

Definition setPanel (title sub objective : string) (bullets : list string) (s : State) : State :=
  mkState (currentRoute s) (currentPointIndex s) (activePointId s) (pointsVisible s)
    (hotspots s) title sub objective bullets
    (prevDisabled s) (nextDisabled s) (startPointOptions s) (ariaPressed s).

Definition setButtons (prev next : bool) (s : State) : State :=
  mkState (currentRoute s) (currentPointIndex s) (activePointId s) (pointsVisible s)
    (hotspots s) (panelTitle s) (panelSub s) (panelObjective s) (panelBullets s)
    prev next (startPointOptions s) (ariaPressed s).

Definition setStartPointOptions (opts : list (string * string)) (s : State) : State :=
  mkState (currentRoute s) (currentPointIndex s) (activePointId s) (pointsVisible s)
    (hotspots s) (panelTitle s) (panelSub s) (panelObjective s) (panelBullets s)
    (prevDisabled s) (nextDisabled s) opts (ariaPressed s).

Definition setAriaPressed (v : string) (s : State) : State :=
  mkState (currentRoute s) (currentPointIndex s) (activePointId s) (pointsVisible s)
    (hotspots s) (panelTitle s) (panelSub s) (panelObjective s) (panelBullets s)
    (prevDisabled s) (nextDisabled s) (startPointOptions s) v.

(** *** Hotspot helpers *)

Definition withClasses (sel dm : bool) (h : Hotspot) : Hotspot :=
  mkHotspot (data_id h) sel dm (dot h) (opacity h) (zIndex h).

Definition withOpacity (o : string) (h : Hotspot) : Hotspot :=
  mkHotspot (data_id h) (selected h) (dim h) (dot h) o (zIndex h).

Definition withZIndex (z : string) (h : Hotspot) : Hotspot :=
  mkHotspot (data_id h) (selected h) (dim h) (dot h) (opacity h) z.

(** [setDotColor(h, color)]: nothing happens without a [.dot] child. *)
Definition setDotColor (color : string) (h : Hotspot) : Hotspot :=
  match dot h with
  | Some _ => mkHotspot (data_id h) (selected h) (dim h) (Some color) (opacity h) (zIndex h)
  | None => h
  end.

(** [getHotspotById(id)]: the position of the first hotspot whose
    [data-id] is [id], [None] for [null].  The source splices [id] into
    the selector [#hotspots .hotspot[data-id="..."]]; this is what that
    selector finds for an [id] that is [cssPlain], which every id of
    the configured catalog is. *)
Fixpoint getHotspotById (id : string) (hs : list Hotspot) : option nat :=
  match hs with
  | [] => None
  | h :: hs' => if String.eqb (data_id h) id then Some O else S <$> getHotspotById id hs'
  end.

(** The ids that a double-quoted CSS string spells as they are:
    printable ASCII characters other than the double quote, which ends
    the string, and the backslash, which starts an escape. *)
Definition cssPlain (id : string) : bool :=
  forallb (fun c => let n := nat_of_ascii c in
                    (32 <=? n)%nat && (n <=? 126)%nat &&
                    negb (n =? 34)%nat && negb (n =? 92)%nat)
          (list_ascii_of_string id).

(** [pts.findIndex(pt => pt.id === pid)], [None] for -1. *)
Definition findIndex (pid : string) (pts : list Checkpoint.t) : option nat :=
  indexOf pid (map Checkpoint.id pts).

(** [(currentRoute.points || []).some(pt => pt.id === pid)]. *)
Definition belongs (r : Route.t) (pid : string) : bool :=
  existsb (fun pt => String.eqb (Checkpoint.id pt) pid) (Route.points r).

(** [pointsVisible ? '1' : '0.06']. *)
Definition opacityOf (visible : bool) : string := if visible then "1" else "0.06".

(** [belongs ? currentRoute.color : '#94a3b8']. *)
Definition tintOf (r : Route.t) (pid : string) : string :=
  if belongs r pid then Route.color r else "#94a3b8".

(** [activePointId === pid]. *)
Definition isActive (s : State) (pid : string) : bool :=
  match activePointId s with
  | Some a => String.eqb a pid
  | None => false
  end.

(** *** Highlight / unhighlight *)

Definition unhighlightAll (s : State) : State :=
  let r := currentRoute s in
  let visible := pointsVisible s in
  setActivePointId None
    (setHotspots
       (map (fun h =>
               withZIndex "60"
                 (withOpacity (opacityOf visible)
                    (setDotColor (tintOf r (data_id h)) (withClasses false false h))))
            (hotspots s))
       s).

(** The first block of [highlightPoint]:
    [if(activePointId){ const prev = getHotspotById(activePointId);
    if(prev) prev.classList.remove('selected'); }]. *)
Definition dropSelected (activeId : option string) (hs : list Hotspot) : list Hotspot :=
  match activeId with
  | Some a =>
      if JS.truthy a then
        match getHotspotById a hs with
        | Some prev => alter (fun h => withClasses false (dim h) h) prev hs
        | None => hs
        end
      else hs
  | None => hs
  end.

(** [hotspotEls().forEach(h => h.classList.remove('dim'))]. *)
Definition clearDim (hs : list Hotspot) : list Hotspot :=
  map (fun h => withClasses (selected h) false h) hs.

(** The block on [target = getHotspotById(id)]: the target becomes
    selected, red, raised and as opaque as [pointsVisible] says; every
    other hotspot is dimmed. *)
Definition markTarget (visible : bool) (id : string) (hs : list Hotspot) : list Hotspot :=
  match getHotspotById id hs with
  | Some target =>
      imap (fun i h =>
              if Nat.eqb i target then
                withOpacity (opacityOf visible)
                  (withZIndex "100" (setDotColor "#ef4444" (withClasses true (dim h) h)))
              else withClasses (selected h) true h)
           hs
  | None => hs
  end.

Definition highlightPoint (id : string) (s : State) : State :=
  if isActive s id then s
  else
    setActivePointId (Some id)
      (setHotspots
         (markTarget (pointsVisible s) id
            (clearDim (dropSelected (activePointId s) (hotspots s))))
         s).

(** *** Visibility *)

Definition setPointsVisibility (visible : bool) (s : State) : State :=
  setAriaPressed (if visible then "true" else "false")
    (setHotspots (map (withOpacity (opacityOf visible)) (hotspots s))
       (setPointsVisible visible s)).

(** *** Panel *)

Definition renderPanel (s : State) : State :=
  let pts := Route.points (currentRoute s) in
  match pts !! currentPointIndex s with
  | None => s
  | Some p =>
      let s1 := setPanel (Checkpoint.title p)
                  (Route.name (currentRoute s) +:+ " • Point: " +:+ Checkpoint.id p)
                  (Checkpoint.objective p) (Checkpoint.bullets p) s in
      let s2 := setButtons (currentPointIndex s <=? 0)%nat
                  (Z.of_nat (length pts) - 1 <=? Z.of_nat (currentPointIndex s))%Z s1 in
      let s3 := highlightPoint (Checkpoint.id p) s2 in
      setPointsVisibility (pointsVisible s3) s3
  end.

Definition populateStartPointOptions (s : State) : State :=
  setStartPointOptions
    (("VOCC", "VOCC (origin)") ::
     map (fun pt => (Checkpoint.id pt, Checkpoint.id pt +:+ " — " +:+ Checkpoint.title pt))
         (Route.points (currentRoute s)))
    s.

(** *** Route selection *)

(** [routes.find(r => r.id === routeId) || routes[0]].  The script
    fails while loading when [routes] is empty, so the fall-back
    [routes[0]] of a running script is the head of the list; on an empty
    list the model keeps the route it is given. *)
Definition findRoute (routes : list Route.t) (routeId : string) (current : Route.t) : Route.t :=
  match find (fun r => String.eqb (Route.id r) routeId) routes with
  | Some r => r
  | None => match routes with r0 :: _ => r0 | [] => current end
  end.

Definition showRoute (routes : list Route.t) (routeId : string) (s : State) : State :=
  let s1 := setCurrentRoute (findRoute routes routeId (currentRoute s)) s in
  let r := currentRoute s1 in
  let s2 :=
    setHotspots
      (map (fun h =>
              if isActive s1 (data_id h) then h
              else withOpacity (opacityOf (pointsVisible s1))
                     (setDotColor (tintOf r (data_id h)) h))
           (hotspots s1))
      s1 in
  let s3 :=
    match Route.points r with
    | _ :: _ =>
        let s2' := if (length (Route.points r) <=? currentPointIndex s2)%nat
                   then setCurrentPointIndex 0 s2 else s2 in
        renderPanel s2'
    | [] =>
        unhighlightAll
          (setPanel "No points" (Route.name r)
             "No points configured for this route." [] s2)
    end in
  populateStartPointOptions s3.

Definition resetAll (routes : list Route.t) (s : State) : State :=
  let s1 := unhighlightAll s in
  let s2 := setPointsVisible true s1 in
  let s3 := setPointsVisibility true s2 in
  showRoute routes (Route.id (currentRoute s3)) s3.

(** *** Event handlers *)

(** The [for (const r of routes)] of the click handler: the first route
    holding [pid], with the position of [pid] in it. *)
Fixpoint firstRouteWith (pid : string) (routes : list Route.t) : option (Route.t * nat) :=
  match routes with
  | [] => None
  | r :: routes' =>
      match findIndex pid (Route.points r) with
      | Some f => Some (r, f)
      | None => firstRouteWith pid routes'
      end
  end.

(** The click handler of [hotspotsContainer], for a click that lands on
    a hotspot whose [data-id] is [pid]. *)
Definition hotspotClick (routes : list Route.t) (pid : string) (s : State) : State :=
  match findIndex pid (Route.points (currentRoute s)) with
  | Some idx => renderPanel (setCurrentPointIndex idx s)
  | None =>
      match firstRouteWith pid routes with
      | Some (r, f) =>
          let s1 := showRoute routes (Route.id r) (setCurrentRoute r s) in
          renderPanel (setCurrentPointIndex f s1)
      | None =>
          setPanel ("Point " +:+ pid) "No route data"
            "No objective available for this specific point." []
            (highlightPoint pid s)
      end
  end.

Definition prevClick (s : State) : State :=
  if (0 <? currentPointIndex s)%nat
  then renderPanel (setCurrentPointIndex (currentPointIndex s - 1) s)
  else s.

Definition nextClick (s : State) : State :=
  if (Z.of_nat (currentPointIndex s) <? Z.of_nat (length (Route.points (currentRoute s))) - 1)%Z
  then renderPanel (setCurrentPointIndex (currentPointIndex s + 1) s)
  else s.

Definition togglePointsClick (s : State) : State :=
  setPointsVisibility (negb (pointsVisible s)) s.

(** The events the script listens to.  The key handlers of a hotspot
    only forward: Enter and Space to its click, Escape to [resetAll]. *)
Inductive Event :=
| RouteChange (routeId : string)
| HotspotClick (pid : string)
| PrevClick
| NextClick
| TogglePointsClick
| ResetClick.

Definition handle (routes : list Route.t) (e : Event) (s : State) : State :=
  match e with
  | RouteChange routeId => showRoute routes routeId s
  | HotspotClick pid => hotspotClick routes pid s
  | PrevClick => prevClick s
  | NextClick => nextClick s
  | TogglePointsClick => togglePointsClick s
  | ResetClick => resetAll routes s
  end.

(** The state after a sequence of events, oldest first. *)
Definition run (routes : list Route.t) (es : list Event) (s : State) : State :=
  fold_left (fun st e => handle routes e st) es s.

(** ** The specification's wording, to compare the code with *)

(** LegGraph contract: the directed entry, else the reverse entry, else
    the sentinel 0. *)
Definition legTime_spec (tm : gmap string (gmap string N)) (from to : string) : N :=
  match entry tm from to with
  | Some m => m
  | None => default 0 (entry tm to from)
  end.

(** The suffix of [l] that starts at its first element satisfying [P]. *)
Fixpoint suffixAt {A} (P : A → bool) (l : list A) : option (list A) :=
  match l with
  | [] => None
  | x :: l' => if P x then Some l else suffixAt P l'
  end.

(** TraversalResolver contract, rules 1 to 3. *)
Definition resolve_spec (tm : gmap string (gmap string N)) (route : Route.t)
    (origin : string) : list string :=
  let pts := map Checkpoint.id (Route.points route) in
  if bool_decide (origin ∈ pts) then default pts (suffixAt (String.eqb origin) pts)
  else default pts (suffixAt (fun p => 0 <? getLegTime tm origin p) pts).

(** Digits zero-padded on the left to [width] characters. *)
Definition zeroPad (width : nat) (digits : string) : string :=
  String.concat "" (replicate (width - String.length digits) "0") +:+ digits.

(** Clock string of a number of minutes since midnight. *)
Definition clock_spec (n : N) : string :=
  zeroPad 2 (JS.toString (n / 60)) +:+ ":" +:+ zeroPad 2 (JS.toString (n mod 60)).

(** The numbers a clock string shows before and after its colon. *)
Definition hourComponent (clock : string) : option N :=
  JS.Number (JS.split ":" clock !! 0%nat).

Definition minuteComponent (clock : string) : option N :=
  JS.Number (JS.split ":" clock !! 1%nat).

Definition isDigit (c : ascii) : bool :=
  (48 <=? nat_of_ascii c)%nat && (nat_of_ascii c <=? 57)%nat.

Definition digitVal (c : ascii) : N := N.of_nat (nat_of_ascii c - 48).

(** A 24-hour [HH:MM] clock time: two digits, a colon, two digits, the
    hour below 24 and the minute below 60. *)
Definition isClockTime (s : string) : bool :=
  match s with
  | String a (String b (String sep (String c (String d EmptyString)))) =>
      isDigit a && isDigit b && Ascii.eqb sep ":" && isDigit c && isDigit d
      && (10 * digitVal a + digitVal b <? 24)
      && (10 * digitVal c + digitVal d <? 60)
  | _ => false
  end.

(** What a leg row says about the leg itself. *)
Definition legOf (r : LegRow) : string * string * N := (from r, to r, legTimeMin r).

(** A row moved one place down the table. *)
Definition shiftRow (r : LegRow) : LegRow :=
  mkLegRow (S (legIndex r)) (from r) (to r) (legTimeMin r) (legTimeHrs r) (eta r).

(** A checkpoint is active when [activePointId] names it. *)
Definition active (s : State) (pid : string) : Prop := activePointId s = Some pid.

(** The ids of the current route, in route order. *)
Definition routeIds (r : Route.t) : list string := map Checkpoint.id (Route.points r).

(** Start-up.  [loaded] holds the globals as the script declares them
    over a page with one plain hotspot per checkpoint of the first
    route; [init] is the script's initialisation, less the calls that
    only fill the route drop-down, attach listeners or set attributes. *)
Definition hotspotsA : list Hotspot :=
  map (fun pid => mkHotspot pid false false (Some "#94a3b8") "" "")
      ["P"; "Q"; "R"; "S"; "T"; "U"; "S/P"].

Definition loaded : State :=
  mkState routeA 0 None true hotspotsA "" "" "" [] false false [] "".

Definition init (routes : list Route.t) (s : State) : State :=
  setPointsVisibility true
    (showRoute routes (Route.id (currentRoute s)) (populateStartPointOptions s)).

(** After start-up the operator clicks checkpoint R and hides the points. *)
Definition stateAtR : State :=
  run routes [HotspotClick "R"; TogglePointsClick] (init routes loaded).

Definition emptyRoute : Route.t := Route.mk "routeC" "Route Charlie" "#22c55e" [].

(** A string of decimal digits only. *)
Definition allDigits (s : string) : bool :=
  forallb isDigit (list_ascii_of_string s).

(** The sum of the minutes of a sequence of leg rows. *)
Definition sumMinutes (rs : list LegRow) : N :=
  foldr (fun r acc => legTimeMin r + acc) 0 rs.

(** The rows the loop of [calculateETAs] appends for [routeSeq] when it
    starts with [legCounter = counter] and [currentMinutes = minutes]. *)
Fixpoint legRows (tm : gmap string (gmap string N)) (counter : nat) (minutes : N)
    (routeSeq : list string) : list LegRow :=
  match routeSeq with
  | from :: ((to :: _) as rest) =>
      let legTime := getLegTime tm from to in
      mkLegRow (S counter) from to legTime (formatHoursFromMinutes legTime)
        (minutesToHHMM (minutes + legTime))
      :: legRows tm (S counter) (minutes + legTime) rest
  | _ => []
  end.

(** The selected class follows [activePointId]: a hotspot carrying it
    has the active id and is the one [getHotspotById] finds for it. *)
Definition selectedIsActive (s : State) : Prop :=
  ∀ i h, hotspots s !! i = Some h → selected h = true →
    activePointId s = Some (data_id h) ∧
    getHotspotById (data_id h) (hotspots s) = Some i.

(** Every checkpoint id of the route is a non-empty string. *)
Definition idsTruthy (r : Route.t) : Prop :=
  Forall (fun p => Checkpoint.id p ≠ "") (Route.points r).

(** A click lands on a hotspot whose [data-id] is a non-empty string. *)
Definition clickOk (e : Event) : Prop :=
  match e with
  | HotspotClick pid => pid ≠ ""
  | _ => True
  end.

(** The invariant behind the exclusive highlight. *)
Definition HighlightInv (s : State) : Prop :=
  selectedIsActive s ∧ activePointId s ≠ Some "" ∧ idsTruthy (currentRoute s).

(** ** Rendering the ETA table: [renderETATable] *)

(** The three values interpolated into [etaSummary]. *)
Record EtaSummary := mkEtaSummary {
  totalHoursFormatted : string;
  summaryMinutes : N;
  summaryFinalEta : string
}.

(** What the script writes for the schedule.  Each line of
    [etaTableBody] is the markup assigned to the [innerHTML] of a new
    [tr]: markup, not text, which the browser parses; an id with a
    character that is special in HTML is displayed otherwise than it
    is spelled.  The summary is [None] when [etaSummary] is empty, and
    else the three values interpolated into its markup. *)
Record EtaPanel := mkEtaPanel {
  etaTableBody : list string;
  etaSummary : option EtaSummary
}.

(** A double quote, and a line break followed by [n] spaces, as the
    template literals of the script have them. *)
Definition dquote : string := String "034"%char EmptyString.

Definition lineBreak (n : nat) : string :=
  String "010"%char (JS.filler n " " EmptyString).

(** [<td class="py-1">inner</td>]. *)
Definition td (inner : string) : string :=
  "<td class=" +:+ dquote +:+ "py-1" +:+ dquote +:+ ">" +:+ inner +:+ "</td>".

(** The template literal of one schedule line. *)
Definition rowMarkup (r : LegRow) : string :=
  lineBreak 6 +:+ td (JS.toString (N.of_nat (legIndex r))) +:+
  lineBreak 6 +:+ td (from r) +:+
  lineBreak 6 +:+ td (to r) +:+
  lineBreak 6 +:+ td (legTimeHrs r +:+ " h") +:+
  lineBreak 6 +:+ td (eta r) +:+
  lineBreak 4.

(** The line shown for a schedule without legs. *)
Definition noLegsMarkup : string :=
  "<td colspan=" +:+ dquote +:+ "5" +:+ dquote +:+ " class=" +:+ dquote +:+
  "py-2 text-center" +:+ dquote +:+
  ">No legs available or missing time-matrix entries.</td>".

(** [minutesToHHMM] on a number that may be [NaN] ([None]):
    [String(NaN)] is "NaN", which [padStart(2, "0")] leaves alone. *)
Definition minutesToHHMM_num (x : option N) : string :=
  match x with
  | Some n => minutesToHHMM n
  | None => "NaN:NaN"
  end.

(** The fall-back of [rows.finalEta || ...]: the start time read without
    the [|| 0] guards, plus the total. *)
Definition finalEtaFallback (startTime : string) (total : N) : string :=
  let parts := JS.split ":" startTime in
  let start :=
    if JS.truthy startTime then
      h ← JS.Number (parts !! 0%nat); m ← JS.Number (parts !! 1%nat); Some (h * 60 + m)
    else Some 0 in
  minutesToHHMM_num ((fun n => n + total) <$> start).

(** [renderETATable], given the values of [startTimeInput] and
    [startPointSelect]: the panel after the call and the text of the
    alert, if one was raised. *)
Definition renderETATable (tm : gmap string (gmap string N)) (currentRoute : Route.t)
    (startTime startPointValue : string) (panel : EtaPanel) : EtaPanel * option string :=
  if negb (JS.truthy startTime)
  then (panel, Some "Enter a starting time first (HH:MM).")
  else
    let startPoint := if JS.truthy startPointValue then startPointValue else "VOCC" in
    let res := calculateETAs tm currentRoute (Some startTime) startPoint in
    match rows res with
    | [] =>
        (mkEtaPanel [noLegsMarkup] None, None)
    | _ :: _ =>
        let total := default 0 (totalMinutes res) in
        let final :=
          match finalEta res with
          | Some e => if JS.truthy e then e else finalEtaFallback startTime total
          | None => finalEtaFallback startTime total
          end in
        (mkEtaPanel (map rowMarkup (rows res))
           (Some (mkEtaSummary (JS.toFixed2_div60 total) total final)),
         None)
    end.

(** ** Predicates for the further properties *)

(** The checkpoints a schedule passes through: the traversal sequence,
    preceded by the start point when that is not its first element. *)
Definition schedulePath (tm : gmap string (gmap string N)) (route : Route.t)
    (startPoint : string) : list string :=
  match buildTraversalSequence tm route startPoint with
  | [] => []
  | t0 :: rest => if String.eqb startPoint t0 then t0 :: rest else startPoint :: t0 :: rest
  end.

(** [currentPointIndex] addresses a point of the current route, when the
    route has points. *)
Definition indexValid (s : State) : Prop :=
  Route.points (currentRoute s) ≠ [] →
  (currentPointIndex s < length (Route.points (currentRoute s)))%nat.

(** The panel, the paging buttons and the highlight all show the
    checkpoint at [currentPointIndex]. *)
Definition panelShowsCurrent (s : State) : Prop :=
  ∀ p, Route.points (currentRoute s) !! currentPointIndex s = Some p →
    activePointId s = Some (Checkpoint.id p) ∧
    panelTitle s = Checkpoint.title p ∧
    panelSub s = Route.name (currentRoute s) +:+ " • Point: " +:+ Checkpoint.id p ∧
    panelObjective s = Checkpoint.objective p ∧
    panelBullets s = Checkpoint.bullets p ∧
    prevDisabled s = (currentPointIndex s =? 0)%nat ∧
    nextDisabled s
    = (length (Route.points (currentRoute s)) - 1 <=? currentPointIndex s)%nat.

(** A click lands on a hotspot of some checkpoint of the catalog. *)
Definition clickInCatalog (routes : list Route.t) (e : Event) : Prop :=
  match e with
  | HotspotClick pid => ∃ r, r ∈ routes ∧ pid ∈ routeIds r
  | _ => True
  end.

(** [startPointSelect] offers VOCC and then the points of the current
    route, in route order. *)
Definition optionsShowRoute (s : State) : Prop :=
  startPointOptions s
  = ("VOCC", "VOCC (origin)") ::
    map (fun pt => (Checkpoint.id pt, Checkpoint.id pt +:+ " — " +:+ Checkpoint.title pt))
        (Route.points (currentRoute s)).

(** A hotspot as [resetAll] leaves it before the highlight is put back:
    no class, the dot (if any) in the tint of route [r], fully opaque,
    at z-index 60. *)
Definition baseHotspot (r : Route.t) (h : Hotspot) : Hotspot :=
  mkHotspot (data_id h) false false
    (match dot h with Some _ => Some (tintOf r (data_id h)) | None => None end)
    "1" "60".

(** The state [resetAll] ends in, written out field by field, for the
    route [r] it selects and the index, buttons and hotspots it starts
    from. *)
Definition afterReset (r : Route.t) (idx : nat) (prev next : bool)
    (hs : list Hotspot) : State :=
  let options :=
    ("VOCC", "VOCC (origin)") ::
    map (fun pt => (Checkpoint.id pt, Checkpoint.id pt +:+ " — " +:+ Checkpoint.title pt))
        (Route.points r) in
  match Route.points r with
  | [] =>
      mkState r idx None true (map (baseHotspot r) hs)
        "No points" (Route.name r) "No points configured for this route." []
        prev next options "true"
  | _ :: _ =>
      let idx' := if (length (Route.points r) <=? idx)%nat then 0%nat else idx in
      match Route.points r !! idx' with
      | Some p =>
          mkState r idx' (Some (Checkpoint.id p)) true
            (map (withOpacity "1")
               (markTarget true (Checkpoint.id p) (map (baseHotspot r) hs)))
            (Checkpoint.title p)
            (Route.name r +:+ " • Point: " +:+ Checkpoint.id p)
            (Checkpoint.objective p) (Checkpoint.bullets p)
            (idx' <=? 0)%nat
            (Z.of_nat (length (Route.points r)) - 1 <=? Z.of_nat idx')%Z
            options "true"
      | None =>
          mkState r idx' None true (map (baseHotspot r) hs) "" "" "" []
            prev next options "true"
      end
  end.

(** * Properties *)

(** ** LegGraph *)

Lemma truthy_true (s : string) : JS.truthy s = true ↔ s ≠ "".
Proof.
  unfold JS.truthy. rewrite negb_true_iff.
  destruct (String.eqb_spec s ""); split; congruence.
Qed.

Lemma getLegTime_falsy_l tm to : getLegTime tm "" to = 0.
Proof. reflexivity. Qed.

Lemma getLegTime_falsy_r tm from : getLegTime tm from "" = 0.
Proof. unfold getLegTime. simpl. by rewrite orb_true_r. Qed.

Lemma getLegTime_truthy tm from to :
  from ≠ "" → to ≠ "" → getLegTime tm from to = legTime_spec tm from to.
Proof.
  intros Hf Ht. apply truthy_true in Hf, Ht.
  unfold getLegTime, legTime_spec. rewrite Hf, Ht. simpl.
  by destruct (entry tm from to), (entry tm to from).
Qed.

(** The guard on falsy ids never fires against an entry of the
    configured matrix: no key of [timeMatrix] is the empty string. *)
Lemma timeMatrix_no_empty_id from to :
  entry timeMatrix "" to = None ∧ entry timeMatrix from "" = None.
Proof.
  split; [reflexivity|].
  unfold entry. destruct (timeMatrix !! from) as [row|] eqn:Hrow; [|done].
  simpl. unfold timeMatrix in Hrow. apply elem_of_list_to_map_2 in Hrow.
  repeat (apply elem_of_cons in Hrow as [Heq|Hrow];
          [injection Heq as -> ->; vm_compute; reflexivity|]).
  by apply elem_of_nil in Hrow.
Qed.

Lemma getLegTime_timeMatrix from to :
  getLegTime timeMatrix from to = legTime_spec timeMatrix from to.
Proof.
  destruct (decide (from = "")) as [->|Hf].
  { rewrite getLegTime_falsy_l. unfold legTime_spec.
    destruct (timeMatrix_no_empty_id to to) as [-> _].
    destruct (timeMatrix_no_empty_id to to) as [_ ->]. done. }
  destruct (decide (to = "")) as [->|Ht].
  { rewrite getLegTime_falsy_r. unfold legTime_spec.
    destruct (timeMatrix_no_empty_id from from) as [_ ->].
    destruct (timeMatrix_no_empty_id from from) as [-> _]. done. }
  by apply getLegTime_truthy.
Qed.

Lemma falsy_guard_comm (a b : string) :
  negb (JS.truthy a) || negb (JS.truthy b) = negb (JS.truthy b) || negb (JS.truthy a).
Proof. apply orb_comm. Qed.

(** The contract on the entries of the matrix. *)
Lemma getLegTime_entries (tm : gmap string (gmap string N)) (from to : string) :
  (from ≠ "" → to ≠ "" →
     ∀ m, entry tm from to = Some m → getLegTime tm from to = m) ∧
  (from ≠ "" → to ≠ "" →
     ∀ m, entry tm from to = None → entry tm to from = Some m →
          getLegTime tm from to = m) ∧
  (entry tm from to = None → entry tm to from = None → getLegTime tm from to = 0) ∧
  ((is_Some (entry tm from to) ∧ entry tm to from = None) ∨
   (entry tm from to = None ∧ is_Some (entry tm to from)) →
     getLegTime tm from to = getLegTime tm to from) ∧
  (entry tm from from = None → getLegTime tm from from = 0).
Proof.
  repeat split.
  - intros Hf Ht m Hm. rewrite (getLegTime_truthy tm from to Hf Ht).
    unfold legTime_spec. by rewrite Hm.
  - intros Hf Ht m Hn Hm. rewrite (getLegTime_truthy tm from to Hf Ht).
    unfold legTime_spec. by rewrite Hn, Hm.
  - intros Hn Hr. unfold getLegTime.
    destruct (negb (JS.truthy from) || negb (JS.truthy to)); [done|].
    by rewrite Hn, Hr.
  - intros Hone. unfold getLegTime. rewrite (falsy_guard_comm from to).
    destruct (negb (JS.truthy to) || negb (JS.truthy from)); [done|].
    destruct Hone as [[[m Hm] Hr]|[Hr [m Hm]]]; by rewrite Hm, Hr.
  - intros Hn. unfold getLegTime.
    destruct (negb (JS.truthy from) || negb (JS.truthy from)); [done|].
    by rewrite Hn.
Qed.

(** On an id that names no inherited member, the test of the source
    finds the entry of the matrix and nothing else. *)
Lemma numberTest_entry (tm : gmap string (gmap string N)) (a b : string) :
  Proto.inheritedFunction a = None →
  Proto.numberTest tm a b
  = match entry tm a b with Some n => Proto.IsNumber n | None => Proto.NoNumber end.
Proof.
  intros Ha. unfold Proto.numberTest, Proto.member, entry. rewrite Ha.
  destruct (tm !! a) as [row|]; simpl; [done|].
  by destruct (String.eqb a "__proto__").
Qed.

(** The two models of [getLegTime] agree wherever neither id names an
    inherited member. *)
Lemma getLegTime_own_keys (tm : gmap string (gmap string N)) (from to : string) :
  Proto.inheritedFunction from = None → Proto.inheritedFunction to = None →
  Proto.getLegTime tm from to = Some (getLegTime tm from to).
Proof.
  intros Hf Ht. unfold Proto.getLegTime, getLegTime.
  destruct (negb (JS.truthy from) || negb (JS.truthy to)); [done|].
  rewrite (numberTest_entry tm from to Hf), (numberTest_entry tm to from Ht).
  destruct (entry tm from to); [done|]. by destruct (entry tm to from).
Qed.

(** Every id of the configured catalog, and the origin VOCC, names no
    inherited member: on the configured data the two models agree. *)
Lemma catalog_ids_own :
  Forall (fun k => Proto.inheritedFunction k = None)
         ("VOCC" :: flat_map (fun r => map Checkpoint.id (Route.points r)) routes).
Proof. repeat constructor. Qed.

(** C4, as the specification words it, fails on two kinds of ids.  The
    pair (constructor, length) has no entry in either direction, and
    the result is 1, the [length] of [Object], not 0.  And in a matrix
    with a directed entry of 5 minutes from the empty id to P, the
    result for that pair is 0, not the entry. *)
Lemma getLegTime_off_the_matrix :
  (entry timeMatrix "constructor" "length" = None ∧
   entry timeMatrix "length" "constructor" = None ∧
   Proto.getLegTime timeMatrix "constructor" "length" = Some 1) ∧
  (entry {[ "" := {[ "P" := 5 ]} ]} "" "P" = Some 5 ∧
   Proto.getLegTime {[ "" := {[ "P" := 5 ]} ]} "" "P" = Some 0).
Proof. by vm_compute. Qed.

(** C4, amended.  For ids [from] and [to] that name no member
    inherited from [Object.prototype]: when both are non-empty, the
    directed entry from->to is returned when it exists, whatever the
    reverse entry is, and otherwise the reverse entry to->from when that
    exists; 0 is returned when neither entry exists, and when [from] or
    [to] is the empty string; [getLegTime a b = getLegTime b a] whenever
    exactly one direction is defined; [getLegTime a a = 0] on an
    undefined pair; and on the configured [timeMatrix], which has no
    empty id, the result is the directed entry, else the reverse entry,
    else 0. *)
Theorem getLegTime_contract (tm : gmap string (gmap string N)) (from to : string) :
  Proto.inheritedFunction from = None → Proto.inheritedFunction to = None →
  (from ≠ "" → to ≠ "" →
     ∀ m, entry tm from to = Some m → Proto.getLegTime tm from to = Some m) ∧
  (from ≠ "" → to ≠ "" →
     ∀ m, entry tm from to = None → entry tm to from = Some m →
          Proto.getLegTime tm from to = Some m) ∧
  (entry tm from to = None → entry tm to from = None →
     Proto.getLegTime tm from to = Some 0) ∧
  (from = "" ∨ to = "" → Proto.getLegTime tm from to = Some 0) ∧
  ((is_Some (entry tm from to) ∧ entry tm to from = None) ∨
   (entry tm from to = None ∧ is_Some (entry tm to from)) →
     Proto.getLegTime tm from to = Proto.getLegTime tm to from) ∧
  (entry tm from from = None → Proto.getLegTime tm from from = Some 0) ∧
  Proto.getLegTime timeMatrix from to = Some (legTime_spec timeMatrix from to).
Proof.
  intros Hf Ht.
  rewrite !(getLegTime_own_keys _ from to Hf Ht), (getLegTime_own_keys tm to from Ht Hf),
    (getLegTime_own_keys tm from from Hf Hf).
  destruct (getLegTime_entries tm from to) as (Hfwd & Hrev & Hnone & Hsym & Hself).
  split; [|split; [|split; [|split; [|split; [|split]]]]].
  - intros H1 H2 m Hm. f_equal. by apply Hfwd.
  - intros H1 H2 m Hn Hm. f_equal. by apply Hrev.
  - intros Hn Hr. f_equal. by apply Hnone.
  - intros Hempty. f_equal. unfold getLegTime.
    destruct Hempty as [->| ->]; [done|]. by rewrite orb_true_r.
  - intros Hone. f_equal. by apply Hsym.
  - intros Hn. f_equal. by apply Hself.
  - f_equal. apply getLegTime_timeMatrix.
Qed.

Lemma getLegTime_contract_witness :
  Proto.getLegTime timeMatrix "P" "Q" = Some 14 ∧
  Proto.getLegTime timeMatrix "Q" "P" = Some 14.
Proof.
  assert (Proto.inheritedFunction "P" = None) as IP by reflexivity.
  assert (Proto.inheritedFunction "Q" = None) as IQ by reflexivity.
  pose proof (getLegTime_contract timeMatrix "P" "Q" IP IQ) as (Hfwd & _ & _ & _ & Hsym & _).
  assert ("P" ≠ "") as HP by discriminate.
  assert ("Q" ≠ "") as HQ by discriminate.
  assert (entry timeMatrix "P" "Q" = Some 14) as E1 by (vm_compute; reflexivity).
  assert (entry timeMatrix "Q" "P" = None) as E2 by (vm_compute; reflexivity).
  split.
  - exact (Hfwd HP HQ 14 E1).
  - rewrite <- Hsym; [exact (Hfwd HP HQ 14 E1)|].
    left. split; [by exists 14|exact E2].
Defined.

(** ** TraversalResolver *)

Section Traversal.
Variable tm : gmap string (gmap string N).

Lemma indexOf_lookup x arr i :
  indexOf x arr = Some i → arr !! i = Some x.
Proof.
  revert i. induction arr as [|y arr IH]; intros i; simpl; [done|].
  destruct (String.eqb_spec y x) as [->|Hne].
  - by intros [= <-].
  - destruct (indexOf x arr) as [j|]; simpl; [|done].
    intros [= <-]. by apply IH.
Qed.

Lemma indexOf_None x arr : indexOf x arr = None ↔ x ∉ arr.
Proof.
  induction arr as [|y arr IH]; simpl.
  - split; [intros _; apply not_elem_of_nil|done].
  - destruct (String.eqb_spec y x) as [->|Hne].
    + split; [done|]. intros Hn. exfalso. apply Hn. left.
    + rewrite not_elem_of_cons. destruct (indexOf x arr); simpl.
      * split; [done|]. intros [_ Hn]. by apply IH in Hn.
      * split; [|done]. intros _. split; [congruence|]. by apply IH.
Qed.

Lemma indexOf_suffixAt x arr :
  suffixAt (String.eqb x) arr = (fun i => pushFrom i arr) <$> indexOf x arr.
Proof.
  induction arr as [|y arr IH]; simpl; [done|].
  rewrite (String.eqb_sym x y).
  destruct (String.eqb y x); [done|].
  rewrite IH. by destruct (indexOf x arr).
Qed.

Lemma firstReachable_suffixAt startPoint arr :
  suffixAt (fun p => 0 <? getLegTime tm startPoint p) arr
  = (fun i => pushFrom i arr) <$> firstReachable tm startPoint arr.
Proof.
  induction arr as [|y arr IH]; simpl; [done|].
  destruct (0 <? getLegTime tm startPoint y); [done|].
  rewrite IH. by destruct (firstReachable tm startPoint arr).
Qed.

Lemma firstReachable_lookup startPoint arr i :
  firstReachable tm startPoint arr = Some i →
  ∃ p, arr !! i = Some p ∧ 0 < getLegTime tm startPoint p.
Proof.
  revert i. induction arr as [|y arr IH]; intros i; simpl; [done|].
  destruct (N.ltb_spec 0 (getLegTime tm startPoint y)).
  - intros [= <-]. by exists y.
  - destruct (firstReachable tm startPoint arr) as [j|]; simpl; [|done].
    intros [= <-]. by apply IH.
Qed.

Lemma firstReachable_None startPoint arr :
  firstReachable tm startPoint arr = None ↔
  ∀ p, p ∈ arr → getLegTime tm startPoint p = 0.
Proof.
  induction arr as [|y arr IH]; simpl.
  - split; [|done]. intros _ p Hp. by apply elem_of_nil in Hp.
  - destruct (N.ltb_spec 0 (getLegTime tm startPoint y)) as [Hpos|Hz].
    + split; [done|]. intros Hall. specialize (Hall y). 
      rewrite Hall in Hpos; [lia|left].
    + destruct (firstReachable tm startPoint arr); simpl.
      * split; [done|]. intros Hall.
        exfalso. assert (Some n = None) as Habs; [|done].
        apply IH. intros p Hp. apply Hall. by right.
      * split; [|done]. intros _ p [->|Hp]%elem_of_cons; [lia|].
        by apply IH.
Qed.

Lemma pushFrom_nonempty {i arr} {x : string} :
  arr !! i = Some x → ∃ rest, pushFrom i arr = x :: rest.
Proof.
  intros Hi. unfold pushFrom. exists (drop (S i) arr).
  by apply drop_S.
Qed.

Lemma suffix_is_sublist (l k : list string) : l `suffix_of` k → l `sublist_of` k.
Proof. intros [pre ->]. by apply sublist_inserts_l. Qed.

Lemma buildTraversalSequence_suffix route startPoint :
  buildTraversalSequence tm route startPoint `suffix_of` routeIds route.
Proof.
  unfold buildTraversalSequence, routeIds, pushFrom.
  destruct (indexOf _ _); [apply suffix_drop|].
  destruct (firstReachable _ _ _); [apply suffix_drop|done].
Qed.

(** C3.  For a route with points and any origin, the traversal
    sequence is what the three rules say: the suffix of the route
    from the origin when the origin is on the route; otherwise the
    suffix from the first point reachable from the origin with a
    positive leg time; otherwise the whole route.  It keeps the
    route's order (it is a suffix, hence a sublist, of the route), it
    is never empty, and it repeats no checkpoint, ids being unique
    within a route's list. *)
Theorem buildTraversalSequence_resolves (route : Route.t) (origin : string) :
  Route.points route ≠ [] →
  let result := buildTraversalSequence tm route origin in
  result = resolve_spec tm route origin ∧
  (origin ∈ routeIds route → ∃ rest, result = origin :: rest) ∧
  (origin ∉ routeIds route →
     (∀ p, p ∈ routeIds route → getLegTime tm origin p = 0) →
     result = routeIds route) ∧
  result `suffix_of` routeIds route ∧
  result `sublist_of` routeIds route ∧
  (NoDup (routeIds route) → NoDup result) ∧
  result ≠ [].
Proof.
  intros Hne result.
  assert (result `suffix_of` routeIds route) as Hsuf
    by apply buildTraversalSequence_suffix.
  assert (result = resolve_spec tm route origin) as Hspec.
  { unfold result, buildTraversalSequence, resolve_spec.
    rewrite indexOf_suffixAt, firstReachable_suffixAt.
    destruct (indexOf origin _) as [i|] eqn:Hi; simpl.
    - apply indexOf_lookup in Hi.
      rewrite bool_decide_eq_true_2; [done|].
      by eapply list_elem_of_lookup_2.
    - apply indexOf_None in Hi.
      rewrite bool_decide_eq_false_2 by done.
      by destruct (firstReachable _ _ _). }
  split; [exact Hspec|].
  split.
  { intros Hin. unfold result, buildTraversalSequence. fold (routeIds route).
    destruct (indexOf origin (routeIds route)) as [i|] eqn:Hi.
    - apply indexOf_lookup in Hi. exact (pushFrom_nonempty Hi).
    - apply indexOf_None in Hi. done. }
  split.
  { intros Hout Hnone. unfold result, buildTraversalSequence.
    fold (routeIds route).
    apply indexOf_None in Hout. rewrite Hout.
    apply firstReachable_None in Hnone. by rewrite Hnone. }
  split; [exact Hsuf|].
  split; [by apply suffix_is_sublist|].
  split.
  { intros Hnd. eapply sublist_NoDup; [exact Hnd|by apply suffix_is_sublist]. }
  unfold result, buildTraversalSequence. fold (routeIds route).
  destruct (indexOf origin (routeIds route)) as [i|] eqn:Hi.
  - apply indexOf_lookup in Hi. destruct (pushFrom_nonempty Hi) as [rest ->]. done.
  - destruct (firstReachable tm origin (routeIds route)) as [i|] eqn:Hr.
    + apply firstReachable_lookup in Hr as (p & Hp & _).
      destruct (pushFrom_nonempty Hp) as [rest ->]. done.
    + unfold routeIds. destruct (Route.points route); [done|]. done.
Qed.

End Traversal.

Lemma buildTraversalSequence_resolves_witness :
  buildTraversalSequence timeMatrix routeA "S" = ["S"; "T"; "U"; "S/P"] ∧
  NoDup (buildTraversalSequence timeMatrix routeA "S").
Proof.
  assert (Route.points routeA ≠ []) as Hne by discriminate.
  destruct (buildTraversalSequence_resolves timeMatrix routeA "S" Hne)
    as (Hspec & _ & _ & _ & _ & Hnd & _).
  split.
  - rewrite Hspec. vm_compute. reflexivity.
  - apply Hnd. compute_done.
Defined.

(** ** Clock conversion *)

Section Clock.

Lemma append_cons c s t : String c s +:+ t = String c (s +:+ t).
Proof. reflexivity. Qed.

Lemma zeros_S n :
  String.concat "" (replicate (S n) "0") = String "0" (String.concat "" (replicate n "0")).
Proof. by destruct n. Qed.

Lemma filler_zeros n :
  JS.filler n "0" "0" = String.concat "" (replicate n "0") ∧
  JS.filler n "0" "" = String.concat "" (replicate n "0").
Proof.
  induction n as [|n [IH1 IH2]]; [done|].
  rewrite zeros_S. simpl. by rewrite IH2.
Qed.

Lemma padStart_zeroPad w s : JS.padStart w "0" s = zeroPad w s.
Proof.
  unfold JS.padStart, zeroPad.
  destruct (Nat.leb_spec w (String.length s)) as [Hle|Hgt].
  - by replace (w - String.length s)%nat with 0%nat by lia.
  - by rewrite (proj1 (filler_zeros _)).
Qed.

Lemma allDigits_app s t :
  allDigits (s +:+ t) = allDigits s && allDigits t.
Proof.
  unfold allDigits. induction s as [|c s IH]; simpl; [done|].
  by rewrite IH, andb_assoc.
Qed.

Lemma allDigits_zeros n : allDigits (String.concat "" (replicate n "0")) = true.
Proof. induction n as [|n IH]; [done|]. by rewrite zeros_S. Qed.

Lemma allDigits_uint d : allDigits (NilEmpty.string_of_uint d) = true.
Proof. induction d; simpl; try done. Qed.

Lemma allDigits_toString n : allDigits (JS.toString n) = true.
Proof. apply allDigits_uint. Qed.

Lemma allDigits_zeroPad w s : allDigits s = true → allDigits (zeroPad w s) = true.
Proof.
  intros Hs. unfold zeroPad. by rewrite allDigits_app, allDigits_zeros, Hs.
Qed.

Lemma isDigit_not_colon c : isDigit c = true → Ascii.eqb c ":" = false.
Proof.
  intros Hd. destruct (Ascii.eqb_spec c ":") as [->|]; [|done].
  by vm_compute in Hd.
Qed.

(** Splitting at the colon gives back the two digit strings. *)
Lemma split_digits s :
  allDigits s = true → JS.split ":" s = [s].
Proof.
  unfold allDigits. induction s as [|c s IH]; simpl; [done|].
  intros [Hc Hs]%andb_true_iff. rewrite (isDigit_not_colon c Hc).
  by rewrite IH.
Qed.

Lemma split_clock h m :
  allDigits h = true → allDigits m = true →
  JS.split ":" (h +:+ ":" +:+ m) = [h; m].
Proof.
  intros Hh Hm. unfold allDigits in Hh.
  induction h as [|c h IH]; simpl.
  - by rewrite split_digits.
  - simpl in Hh. apply andb_true_iff in Hh as [Hc Hh].
    rewrite (isDigit_not_colon c Hc). by rewrite IH.
Qed.

Lemma uint_of_string_zeros n s :
  NilEmpty.uint_of_string (String.concat "" (replicate n "0") +:+ s)
  = Nat.iter n Decimal.D0 <$> NilEmpty.uint_of_string s.
Proof.
  induction n as [|n IH].
  - change (NilEmpty.uint_of_string s = id <$> NilEmpty.uint_of_string s).
    by destruct (NilEmpty.uint_of_string s).
  - rewrite zeros_S, append_cons. simpl. rewrite IH.
    by destruct (NilEmpty.uint_of_string s).
Qed.

Lemma of_uint_iter_D0 n d : N.of_uint (Nat.iter n Decimal.D0 d) = N.of_uint d.
Proof. induction n as [|n IH]; [done|]. simpl. exact IH. Qed.

(** Reading back a zero-padded number gives the number. *)
Lemma Number_zeroPad w n : JS.Number (Some (zeroPad w (JS.toString n))) = Some n.
Proof.
  unfold JS.Number, zeroPad, JS.toString. simpl.
  rewrite uint_of_string_zeros, NilEmpty.usu. simpl.
  by rewrite of_uint_iter_D0, Unsigned.of_to.
Qed.

Lemma minutesToHHMM_clock_spec n : minutesToHHMM n = clock_spec n.
Proof. unfold minutesToHHMM, clock_spec. by rewrite !padStart_zeroPad. Qed.

Lemma clock_components n :
  hourComponent (minutesToHHMM n) = Some (n / 60) ∧
  minuteComponent (minutesToHHMM n) = Some (n mod 60).
Proof.
  unfold hourComponent, minuteComponent.
  rewrite minutesToHHMM_clock_spec. unfold clock_spec.
  rewrite split_clock by (apply allDigits_zeroPad, allDigits_toString).
  split; apply Number_zeroPad.
Qed.

(** C7.  [minutesToHHMM] turns 0 into "00:00", 90 into "01:30" and
    1440 into "24:00"; for every non-negative integer [n] below 2^53,
    the integers a JavaScript number holds exactly, the result is
    [n / 60] zero-padded to two digits, a colon, and [n mod 60]
    zero-padded to two digits; read back, its hour component is
    [n / 60] and its minute component [n mod 60], so from 1440 minutes
    on the hour component exceeds 23: the day never wraps around. *)
Theorem minutesToHHMM_no_wraparound :
  minutesToHHMM 0 = "00:00" ∧
  minutesToHHMM 90 = "01:30" ∧
  minutesToHHMM 1440 = "24:00" ∧
  ∀ n : N, n < 2 ^ 53 →
    minutesToHHMM n = clock_spec n ∧
    hourComponent (minutesToHHMM n) = Some (n / 60) ∧
    minuteComponent (minutesToHHMM n) = Some (n mod 60) ∧
    (1440 ≤ n → ∃ h, hourComponent (minutesToHHMM n) = Some h ∧ 23 < h).
Proof.
  split; [reflexivity|]. split; [reflexivity|]. split; [reflexivity|].
  intros n _.
  split; [apply minutesToHHMM_clock_spec|].
  split; [apply clock_components|]. split; [apply clock_components|].
  intros Hn. exists (n / 60). split; [apply clock_components|].
  assert (24 ≤ n / 60); [|lia].
  apply N.div_le_lower_bound; lia.
Qed.

End Clock.

Lemma minutesToHHMM_no_wraparound_witness :
  ∃ h, hourComponent (minutesToHHMM 3000) = Some h ∧ 23 < h.
Proof.
  destruct minutesToHHMM_no_wraparound as (_ & _ & _ & Hall).
  assert (3000 < 2 ^ 53) as Hexact by reflexivity.
  destruct (Hall 3000 Hexact) as (_ & _ & _ & Hwrap).
  apply Hwrap. lia.
Defined.

(** ** ETACalculator *)

Section Eta.
Variable tm : gmap string (gmap string N).

Lemma sumMinutes_app rs1 rs2 : sumMinutes (rs1 ++ rs2) = sumMinutes rs1 + sumMinutes rs2.
Proof.
  unfold sumMinutes. induction rs1 as [|r rs1 IH]; simpl; [done|].
  rewrite IH. lia.
Qed.

(** The loop only appends: its rows are those of [legRows]. *)
Lemma legsLoop_rows routeSeq a :
  accRows (legsLoop tm routeSeq a)
  = accRows a ++ legRows tm (legCounter a) (currentMinutes a) routeSeq.
Proof.
  revert a. induction routeSeq as [|from rest IH]; intros a.
  - simpl. by rewrite app_nil_r.
  - destruct rest as [|to rest'].
    + simpl. by rewrite app_nil_r.
    + change (legsLoop tm (from :: to :: rest') a)
        with (legsLoop tm (to :: rest') (pushLeg tm from to a)).
      rewrite IH. simpl. by rewrite <- app_assoc.
Qed.

(** The running total is the sum of the minutes of the rows so far. *)
Lemma pushLeg_total from to a :
  totalMinutesAccum a = sumMinutes (accRows a) →
  totalMinutesAccum (pushLeg tm from to a) = sumMinutes (accRows (pushLeg tm from to a)).
Proof.
  intros Ha. simpl. rewrite sumMinutes_app, Ha. simpl. lia.
Qed.

Lemma legsLoop_total routeSeq a :
  totalMinutesAccum a = sumMinutes (accRows a) →
  totalMinutesAccum (legsLoop tm routeSeq a) = sumMinutes (accRows (legsLoop tm routeSeq a)).
Proof.
  revert a. induction routeSeq as [|from rest IH]; intros a Ha; [done|].
  destruct rest as [|to rest']; [done|].
  change (legsLoop tm (from :: to :: rest') a)
    with (legsLoop tm (to :: rest') (pushLeg tm from to a)).
  by apply IH, pushLeg_total.
Qed.

Lemma legRows_shift counter minutes routeSeq :
  legRows tm (S counter) minutes routeSeq = map shiftRow (legRows tm counter minutes routeSeq).
Proof.
  revert counter minutes.
  induction routeSeq as [|from rest IH]; intros counter minutes; [done|].
  destruct rest as [|to rest']; [done|].
  change (legRows tm (S counter) minutes (from :: to :: rest'))
    with (mkLegRow (S (S counter)) from to (getLegTime tm from to)
            (formatHoursFromMinutes (getLegTime tm from to))
            (minutesToHHMM (minutes + getLegTime tm from to))
          :: legRows tm (S (S counter)) (minutes + getLegTime tm from to) (to :: rest')).
  rewrite IH. reflexivity.
Qed.

(** The legs themselves do not depend on the counter or the clock. *)
Lemma legRows_legs c1 m1 c2 m2 routeSeq :
  map legOf (legRows tm c1 m1 routeSeq) = map legOf (legRows tm c2 m2 routeSeq).
Proof.
  revert c1 m1 c2 m2.
  induction routeSeq as [|from rest IH]; intros c1 m1 c2 m2; [done|].
  destruct rest as [|to rest']; [done|].
  cbn [legRows map]. f_equal. apply IH.
Qed.

Lemma traversal_nonempty route startPoint :
  Route.points route ≠ [] → buildTraversalSequence tm route startPoint ≠ [].
Proof.
  intros Hne. unfold buildTraversalSequence.
  destruct (indexOf startPoint _) as [i|] eqn:Hi.
  - apply indexOf_lookup in Hi. destruct (pushFrom_nonempty Hi) as [rest ->]. done.
  - destruct (firstReachable tm startPoint _) as [i|] eqn:Hr.
    + apply firstReachable_lookup in Hr as (p & Hp & _).
      destruct (pushFrom_nonempty Hp) as [rest ->]. done.
    + destruct (Route.points route); done.
Qed.

Lemma traversal_empty_route route startPoint :
  Route.points route = [] → buildTraversalSequence tm route startPoint = [].
Proof. intros Hnil. unfold buildTraversalSequence. by rewrite Hnil. Qed.

(** [calculateETAs] on a non-empty start string and a non-empty
    traversal, in closed form. *)
Lemma calculateETAs_unfold route str startPoint t0 rest :
  str ≠ "" →
  buildTraversalSequence tm route startPoint = t0 :: rest →
  let start := parseStartMinutes str in
  let first := if negb (String.eqb startPoint t0)
               then pushLeg tm startPoint t0 (mkAcc 0 start 0 []) 
               else mkAcc 0 start 0 [] in
  let rs := accRows first
            ++ legRows tm (legCounter first) (currentMinutes first) (t0 :: rest) in
  calculateETAs tm route (Some str) startPoint
  = mkEtaRows rs (Some (sumMinutes rs))
      (Some match last rs with Some r => eta r | None => minutesToHHMM start end).
Proof.
  intros Hstr Htrav start first rs.
  unfold calculateETAs. apply truthy_true in Hstr. rewrite Hstr. simpl.
  rewrite Htrav. fold start. fold first.
  rewrite legsLoop_total.
  - by rewrite legsLoop_rows.
  - unfold first. destruct (negb (String.eqb startPoint t0)); [|done].
    by apply pushLeg_total.
Qed.

End Eta.

(** *** Clock-formatted start times *)

Lemma isDigit_cases c :
  isDigit c = true → c ∈ ["0"; "1"; "2"; "3"; "4"; "5"; "6"; "7"; "8"; "9"]%char.
Proof.
  intros Hd.
  destruct c as [[|] [|] [|] [|] [|] [|] [|] [|]];
    vm_compute in Hd; try discriminate Hd; clear Hd;
    repeat first [by left | right].
Qed.

(** Two digits read as their value and print back as themselves. *)
Lemma two_digits a b :
  isDigit a = true → isDigit b = true →
  allDigits (String a (String b "")) = true ∧
  JS.Number (Some (String a (String b ""))) = Some (10 * digitVal a + digitVal b) ∧
  JS.padStart 2 "0" (JS.toString (10 * digitVal a + digitVal b)) = String a (String b "").
Proof.
  intros Ha Hb. split.
  { unfold allDigits. simpl. by rewrite Ha, Hb. }
  apply isDigit_cases in Ha, Hb.
  repeat (apply elem_of_cons in Ha as [->|Ha]);
    try (by apply elem_of_nil in Ha);
    repeat (apply elem_of_cons in Hb as [->|Hb]);
    try (by apply elem_of_nil in Hb);
    vm_compute; done.
Qed.

Lemma isClockTime_inv s :
  isClockTime s = true →
  ∃ a b c d, s = String a (String b (String ":" (String c (String d "")))) ∧
    isDigit a = true ∧ isDigit b = true ∧ isDigit c = true ∧ isDigit d = true ∧
    10 * digitVal a + digitVal b < 24 ∧ 10 * digitVal c + digitVal d < 60.
Proof.
  destruct s as [|a [|b [|sep [|c [|d [|? ?]]]]]]; try discriminate.
  unfold isClockTime. rewrite !andb_true_iff.
  intros [[[[[[Ha Hb] Hsep] Hc] Hd] Hh] Hm].
  apply Ascii.eqb_eq in Hsep as ->.
  apply N.ltb_lt in Hh, Hm.
  by exists a, b, c, d.
Qed.

Lemma isClockTime_truthy s : isClockTime s = true → s ≠ "".
Proof. by destruct s. Qed.

Lemma parseStartMinutes_clock s :
  isClockTime s = true →
  ∃ h m, h < 24 ∧ m < 60 ∧ parseStartMinutes s = h * 60 + m ∧
         minutesToHHMM (h * 60 + m) = s.
Proof.
  intros (a & b & c & d & -> & Ha & Hb & Hc & Hd & Hh & Hm)%isClockTime_inv.
  destruct (two_digits a b Ha Hb) as (Dh & Nh & Ph).
  destruct (two_digits c d Hc Hd) as (Dm & Nm & Pm).
  exists (10 * digitVal a + digitVal b), (10 * digitVal c + digitVal d).
  split; [done|]. split; [done|]. split.
  - unfold parseStartMinutes.
    change (String a (String b (String ":" (String c (String d "")))))
      with (String a (String b "") +:+ ":" +:+ String c (String d "")).
    rewrite (split_clock _ _ Dh Dm).
    change (JS.orZero (JS.Number (Some (String a (String b "")))) * 60
            + JS.orZero (JS.Number (Some (String c (String d ""))))
            = (10 * digitVal a + digitVal b) * 60 + (10 * digitVal c + digitVal d)).
    by rewrite Nh, Nm.
  - unfold minutesToHHMM.
    set (h := 10 * digitVal a + digitVal b) in *.
    set (m := 10 * digitVal c + digitVal d) in *.
    replace ((h * 60 + m) / 60) with h
      by (symmetry; rewrite N.add_comm, N.div_add by lia;
          rewrite (N.div_small m 60) by lia; lia).
    replace ((h * 60 + m) mod 60) with m
      by (symmetry; rewrite N.add_comm, N.Div0.mod_add;
          by apply N.mod_small).
    by rewrite Ph, Pm.
Qed.

(** A clock-formatted start time converts to minutes and back to itself. *)
Lemma clockTime_roundtrip s :
  isClockTime s = true → minutesToHHMM (parseStartMinutes s) = s.
Proof. intros (h & m & _ & _ & -> & Hs)%parseStartMinutes_clock. exact Hs. Qed.

(** *** The claims about [calculateETAs] *)

(** C5.  Scenario 1: on the configured route [P,Q,R,S,T,U,S/P] (the
    first catalog route, current at start-up) and the configured time
    matrix, [calculateETAs("06:00", "P")] yields exactly 6 legs, of 14,
    12, 11, 9, 15 and 8 minutes, with etas 06:14, 06:26, 06:37, 06:46,
    07:01 and 07:09, [totalMinutes = 69] and [finalEta = "07:09"]. *)
Theorem scenario1_from_P :
  let res := calculateETAs timeMatrix routeA (Some "06:00") "P" in
  head routes = Some routeA ∧
  routeIds routeA = ["P"; "Q"; "R"; "S"; "T"; "U"; "S/P"] ∧
  length (rows res) = 6%nat ∧
  map legIndex (rows res) = [1; 2; 3; 4; 5; 6]%nat ∧
  map legOf (rows res) =
    [("P", "Q", 14); ("Q", "R", 12); ("R", "S", 11);
     ("S", "T", 9); ("T", "U", 15); ("U", "S/P", 8)] ∧
  map eta (rows res) = ["06:14"; "06:26"; "06:37"; "06:46"; "07:01"; "07:09"] ∧
  totalMinutes res = Some 69 ∧
  finalEta res = Some "07:09".
Proof. vm_compute. repeat split. Qed.

(** Scenario 2: from the depot VOCC at 05:00 the first leg is VOCC -> P
    (12 minutes, eta 05:12) and the six legs of the route follow. *)
Example scenario2_from_VOCC :
  let res := calculateETAs timeMatrix routeA (Some "05:00") "VOCC" in
  map legOf (rows res) =
    [("VOCC", "P", 12); ("P", "Q", 14); ("Q", "R", 12); ("R", "S", 11);
     ("S", "T", 9); ("T", "U", 15); ("U", "S/P", 8)] ∧
  map eta (rows res) = ["05:12"; "05:26"; "05:38"; "05:49"; "05:58"; "06:13"; "06:21"] ∧
  totalMinutes res = Some 81 ∧
  finalEta res = Some "06:21".
Proof. vm_compute. repeat split. Qed.

(** C2, as the specification words it, fails: "abc" is no HH:MM clock
    time, yet [calculateETAs("abc", "P")] on the configured route
    returns six leg rows, counted from 00:00. *)
Lemma unparseable_start_still_yields_rows :
  isClockTime "abc" = false ∧
  parseStartMinutes "abc" = 0 ∧
  rows (calculateETAs timeMatrix routeA (Some "abc") "P") ≠ [] ∧
  map eta (rows (calculateETAs timeMatrix routeA (Some "abc") "P"))
  = ["00:14"; "00:26"; "00:37"; "00:46"; "01:01"; "01:09"].
Proof. vm_compute. repeat split. discriminate. Qed.

Section EtaClaims.
Variable tm : gmap string (gmap string N).
Variable route : Route.t.

(** C2, amended.  [calculateETAs] returns the empty sequence when the
    start time is missing ([undefined] or the empty string).  Every
    non-empty start time is accepted, parseable or not: the legs
    emitted (from, to, minutes) do not depend on it, the result is
    empty only when the traversal sequence is empty or is the origin
    alone, and the start time matters only through the minutes it is
    read as, a component that is no number counting as 0. *)
Theorem calculateETAs_start_time (origin : string) :
  calculateETAs tm route None origin = noRows ∧
  calculateETAs tm route (Some "") origin = noRows ∧
  (∀ s s', s ≠ "" → s' ≠ "" →
     map legOf (rows (calculateETAs tm route (Some s) origin))
     = map legOf (rows (calculateETAs tm route (Some s') origin))) ∧
  (∀ s, s ≠ "" →
     rows (calculateETAs tm route (Some s) origin) = [] ↔
     buildTraversalSequence tm route origin = [] ∨
     buildTraversalSequence tm route origin = [origin]) ∧
  (∀ s s', s ≠ "" → s' ≠ "" → parseStartMinutes s = parseStartMinutes s' →
     calculateETAs tm route (Some s) origin = calculateETAs tm route (Some s') origin).
Proof.
  split; [done|]. split; [done|]. split; [|split].
  - intros s s' Hs Hs'.
    destruct (buildTraversalSequence tm route origin) as [|t0 rest] eqn:Htrav.
    + unfold calculateETAs. apply truthy_true in Hs, Hs'.
      by rewrite Hs, Hs', Htrav.
    + rewrite (calculateETAs_unfold tm route s origin t0 rest Hs Htrav).
      rewrite (calculateETAs_unfold tm route s' origin t0 rest Hs' Htrav).
      cbn [rows]. destruct (negb (String.eqb origin t0)).
      * cbn [pushLeg accRows legCounter currentMinutes app].
        cbn [map]. f_equal. apply legRows_legs.
      * cbn [accRows legCounter currentMinutes app]. apply legRows_legs.
  - intros s Hs.
    destruct (buildTraversalSequence tm route origin) as [|t0 rest] eqn:Htrav.
    + unfold calculateETAs. apply truthy_true in Hs.
      rewrite Hs, Htrav. simpl. split; [by left|done].
    + rewrite (calculateETAs_unfold tm route s origin t0 rest Hs Htrav).
      cbn [rows]. destruct (String.eqb_spec origin t0) as [<-|Hne].
      * cbn [negb accRows legCounter currentMinutes app].
        destruct rest as [|t1 rest'].
        -- split; [by right|done].
        -- split; [done|]. intros [?|?]; done.
      * cbn [negb pushLeg accRows app]. split; [done|].
        intros [?|[= ? ?]]; [done|]. by subst.
  - intros s s' Hs Hs' Heq. unfold calculateETAs.
    apply truthy_true in Hs, Hs'. by rewrite Hs, Hs', Heq.
Qed.

(** C6, amended.  For a clock-formatted start time and a route with at
    least one point, [totalMinutes] is the sum of the minutes of the
    emitted leg rows and [finalEta] is the eta of the last emitted
    leg, or the start time itself when no leg was emitted.  For a
    route without points the empty sequence comes back bare, with
    neither aggregate attached. *)
Theorem calculateETAs_aggregates (s origin : string) :
  isClockTime s = true →
  let res := calculateETAs tm route (Some s) origin in
  (Route.points route ≠ [] →
     totalMinutes res = Some (sumMinutes (rows res)) ∧
     finalEta res = Some match last (rows res) with
                         | Some r => eta r
                         | None => s
                         end) ∧
  (Route.points route = [] → res = noRows).
Proof.
  intros Hclock res. pose proof (isClockTime_truthy s Hclock) as Hs.
  split.
  - intros Hne.
    destruct (buildTraversalSequence tm route origin) as [|t0 rest] eqn:Htrav.
    { by apply traversal_nonempty with (tm := tm) (startPoint := origin) in Hne. }
    unfold res.
    rewrite (calculateETAs_unfold tm route s origin t0 rest Hs Htrav).
    cbn [rows totalMinutes finalEta].
    by rewrite (clockTime_roundtrip s Hclock).
  - intros Hnil. unfold res, calculateETAs.
    apply truthy_true in Hs. rewrite Hs.
    by rewrite (traversal_empty_route tm route origin Hnil).
Qed.

(** C10.  For a clock-formatted start time and an origin that is no
    point of the route and has no positive leg time to any of its
    points, the schedule still opens with a leg from the origin to the
    route's first point, of 0 minutes and arriving at the start time;
    the legs of the whole route follow it, as they are scheduled from
    the first point, one row further down. *)
Theorem external_origin_zero_leg (s origin : string) (p0 : Checkpoint.t)
    (others : list Checkpoint.t) :
  isClockTime s = true →
  Route.points route = p0 :: others →
  origin ∉ routeIds route →
  (∀ p, p ∈ routeIds route → ¬ (0 < getLegTime tm origin p)) →
  rows (calculateETAs tm route (Some s) origin)
  = mkLegRow 1 origin (Checkpoint.id p0) 0 "0.00" s
    :: map shiftRow (rows (calculateETAs tm route (Some s) (Checkpoint.id p0))).
Proof.
  intros Hclock Hpts Hout Hnone.
  pose proof (isClockTime_truthy s Hclock) as Hs.
  assert (routeIds route = Checkpoint.id p0 :: map Checkpoint.id others) as Hids
    by (unfold routeIds; by rewrite Hpts).
  assert (buildTraversalSequence tm route origin = routeIds route) as Htrav.
  { unfold buildTraversalSequence. fold (routeIds route).
    apply indexOf_None in Hout. rewrite Hout.
    assert (firstReachable tm origin (routeIds route) = None) as ->; [|done].
    apply firstReachable_None. intros p Hp. specialize (Hnone p Hp). lia. }
  assert (buildTraversalSequence tm route (Checkpoint.id p0) = routeIds route) as Htrav0.
  { unfold buildTraversalSequence. fold (routeIds route).
    rewrite Hids. simpl. by rewrite String.eqb_refl. }
  rewrite Hids in Htrav, Htrav0.
  rewrite (calculateETAs_unfold tm route s origin _ _ Hs Htrav).
  rewrite (calculateETAs_unfold tm route s _ _ _ Hs Htrav0).
  cbn [rows].
  assert (origin ≠ Checkpoint.id p0) as Hne.
  { intros ->. apply Hout. rewrite Hids. left. }
  apply String.eqb_neq in Hne. rewrite Hne, String.eqb_refl.
  cbn [negb pushLeg accRows legCounter currentMinutes app].
  assert (getLegTime tm origin (Checkpoint.id p0) = 0) as ->.
  { assert (¬ (0 < getLegTime tm origin (Checkpoint.id p0))); [|lia].
    apply Hnone. rewrite Hids. left. }
  rewrite N.add_0_r, (clockTime_roundtrip s Hclock).
  f_equal. apply legRows_shift.
Qed.

End EtaClaims.

Lemma calculateETAs_start_time_witness :
  map legOf (rows (calculateETAs timeMatrix routeA (Some "abc") "U"))
  = map legOf (rows (calculateETAs timeMatrix routeA (Some "00:00") "U")).
Proof.
  destruct (calculateETAs_start_time timeMatrix routeA "U") as (_ & _ & Hlegs & _ & _).
  apply Hlegs; discriminate.
Defined.

(** C6, as the specification words it, fails on a route without points:
    with the clock time "06:00" no leg is emitted, yet [totalMinutes] is
    not the (empty) sum and [finalEta] is not the start time; both are
    left undefined. *)
Lemma empty_route_has_no_aggregates :
  let res := calculateETAs timeMatrix emptyRoute (Some "06:00") "P" in
  isClockTime "06:00" = true ∧
  rows res = [] ∧
  totalMinutes res ≠ Some (sumMinutes (rows res)) ∧
  finalEta res ≠ Some "06:00" ∧
  totalMinutes res = None ∧ finalEta res = None.
Proof. vm_compute. repeat split; discriminate. Qed.

Lemma calculateETAs_aggregates_witness :
  let res := calculateETAs timeMatrix routeA (Some "06:00") "S/P" in
  totalMinutes res = Some (sumMinutes (rows res)) ∧
  finalEta res = Some match last (rows res) with Some r => eta r | None => "06:00" end.
Proof.
  assert (isClockTime "06:00" = true) as Hclock by reflexivity.
  assert (Route.points routeA ≠ []) as Hne by discriminate.
  exact (proj1 (calculateETAs_aggregates timeMatrix routeA "06:00" "S/P" Hclock) Hne).
Defined.

Lemma external_origin_zero_leg_witness :
  rows (calculateETAs timeMatrix routeA (Some "06:00") "BASE")
  = mkLegRow 1 "BASE" "P" 0 "0.00" "06:00"
    :: map shiftRow (rows (calculateETAs timeMatrix routeA (Some "06:00") "P")).
Proof.
  apply (external_origin_zero_leg timeMatrix routeA "06:00" "BASE"
           (Checkpoint.mk "P" "Checkpoint P" "Initial departure and perimeter securing."
              ["Conduct radar and visual sweep."; "Verify course alignment."; "Next point → Q"])
           (tail (Route.points routeA))).
  - reflexivity.
  - reflexivity.
  - compute_done.
  - intros p Hp. change (p ∈ ["P"; "Q"; "R"; "S"; "T"; "U"; "S/P"]) in Hp.
    repeat (apply elem_of_cons in Hp as [->|Hp];
            [intros Hlt; vm_compute in Hlt; discriminate Hlt|]).
    by apply elem_of_nil in Hp.
Defined.

(** ** SelectionController *)

(** *** What each function does to the four globals *)

Lemma isActive_true s pid : isActive s pid = true ↔ activePointId s = Some pid.
Proof.
  unfold isActive. destruct (activePointId s) as [a|]; [|done].
  destruct (String.eqb_spec a pid); split; congruence.
Qed.

Lemma highlightPoint_globals id s :
  currentRoute (highlightPoint id s) = currentRoute s ∧
  currentPointIndex (highlightPoint id s) = currentPointIndex s ∧
  pointsVisible (highlightPoint id s) = pointsVisible s ∧
  activePointId (highlightPoint id s) = Some id.
Proof.
  unfold highlightPoint. destruct (isActive s id) eqn:Hact.
  - apply isActive_true in Hact. done.
  - done.
Qed.

Lemma setPointsVisibility_globals visible s :
  currentRoute (setPointsVisibility visible s) = currentRoute s ∧
  currentPointIndex (setPointsVisibility visible s) = currentPointIndex s ∧
  pointsVisible (setPointsVisibility visible s) = visible ∧
  activePointId (setPointsVisibility visible s) = activePointId s.
Proof. done. Qed.

Lemma unhighlightAll_globals s :
  currentRoute (unhighlightAll s) = currentRoute s ∧
  currentPointIndex (unhighlightAll s) = currentPointIndex s ∧
  pointsVisible (unhighlightAll s) = pointsVisible s ∧
  activePointId (unhighlightAll s) = None.
Proof. done. Qed.

Lemma renderPanel_globals s :
  currentRoute (renderPanel s) = currentRoute s ∧
  currentPointIndex (renderPanel s) = currentPointIndex s ∧
  pointsVisible (renderPanel s) = pointsVisible s ∧
  activePointId (renderPanel s)
  = match Route.points (currentRoute s) !! currentPointIndex s with
    | Some p => Some (Checkpoint.id p)
    | None => activePointId s
    end.
Proof.
  unfold renderPanel.
  destruct (Route.points (currentRoute s) !! currentPointIndex s) as [p|]; [|done].
  set (s2 := setButtons _ _ _).
  destruct (highlightPoint_globals (Checkpoint.id p) s2) as (Hr & Hi & Hv & Ha).
  destruct (setPointsVisibility_globals
              (pointsVisible (highlightPoint (Checkpoint.id p) s2))
              (highlightPoint (Checkpoint.id p) s2)) as (Hr' & Hi' & Hv' & Ha').
  rewrite Hr', Hi', Hv', Ha', Hr, Hi, Hv, Ha. done.
Qed.

Lemma showRoute_globals routes routeId s :
  let r := findRoute routes routeId (currentRoute s) in
  let idx := match Route.points r with
             | _ :: _ => if (length (Route.points r) <=? currentPointIndex s)%nat
                         then 0%nat else currentPointIndex s
             | [] => currentPointIndex s
             end in
  currentRoute (showRoute routes routeId s) = r ∧
  currentPointIndex (showRoute routes routeId s) = idx ∧
  pointsVisible (showRoute routes routeId s) = pointsVisible s ∧
  activePointId (showRoute routes routeId s)
  = match Route.points r with
    | _ :: _ => match Route.points r !! idx with
                | Some p => Some (Checkpoint.id p)
                | None => activePointId s
                end
    | [] => None
    end.
Proof.
  intros r idx. unfold showRoute.
  set (s1 := setCurrentRoute _ s).
  change (currentRoute s1) with r.
  set (s2 := setHotspots _ s1).
  unfold idx. destruct (Route.points r) as [|p0 pts] eqn:Hpts.
  - done.
  - change (currentPointIndex s2) with (currentPointIndex s).
    set (s2' := if (length (p0 :: pts) <=? currentPointIndex s)%nat
                then setCurrentPointIndex 0 s2 else s2).
    assert (currentRoute s2' = r ∧ pointsVisible s2' = pointsVisible s ∧
            activePointId s2' = activePointId s ∧
            currentPointIndex s2'
            = if (length (p0 :: pts) <=? currentPointIndex s)%nat
              then 0%nat else currentPointIndex s) as (Hr & Hv & Ha & Hi).
    { unfold s2'. by destruct (length (p0 :: pts) <=? currentPointIndex s)%nat. }
    destruct (renderPanel_globals s2') as (Hr' & Hi' & Hv' & Ha').
    cbn [populateStartPointOptions setStartPointOptions currentRoute currentPointIndex
         pointsVisible activePointId].
    rewrite Hr', Hi', Hv', Ha', Hr, Hi, Hv, Ha, Hpts. done.
Qed.

(** *** Reset *)

(** C1, as the specification words it, fails.  With checkpoint R (index
    2) of the first route selected and the points hidden, [resetAll]
    leaves [currentPointIndex] at 2 and [activePointId] at R: the
    highlight is not cleared and the index is not forced to 0. *)
Lemma reset_keeps_index_and_highlight :
  currentPointIndex stateAtR = 2%nat ∧
  activePointId stateAtR = Some "R" ∧
  pointsVisible stateAtR = false ∧
  ¬ (activePointId (resetAll routes stateAtR) = None ∧
     pointsVisible (resetAll routes stateAtR) = true ∧
     currentPointIndex (resetAll routes stateAtR) = 0%nat) ∧
  activePointId (resetAll routes stateAtR) = Some "R" ∧
  currentPointIndex (resetAll routes stateAtR) = 2%nat.
Proof.
  assert (currentPointIndex (resetAll routes stateAtR) = 2%nat) as Hidx
    by (vm_compute; reflexivity).
  repeat split; try (vm_compute; reflexivity).
  intros (_ & _ & Hzero). rewrite Hidx in Hzero. discriminate.
Qed.

(** C1, amended.  After [resetAll], for every prior state:
    [pointsVisible] is true and the route is selected again (looked up
    in the catalog by the current route's id, the first catalog route
    when the id is unknown); [currentPointIndex] is kept when it is in
    range and becomes 0 only when it is out of range for a route with
    points; the checkpoint at that index is highlighted again, so
    [activePointId] is its id; [activePointId] is cleared only when the
    route has no points. *)
Theorem resetAll_effect (routes : list Route.t) (s : State) :
  let s' := resetAll routes s in
  let r := findRoute routes (Route.id (currentRoute s)) (currentRoute s) in
  pointsVisible s' = true ∧
  currentRoute s' = r ∧
  ((currentPointIndex s < length (Route.points r))%nat →
     currentPointIndex s' = currentPointIndex s) ∧
  (Route.points r ≠ [] → (length (Route.points r) ≤ currentPointIndex s)%nat →
     currentPointIndex s' = 0%nat) ∧
  (Route.points r ≠ [] →
     ∃ p, Route.points r !! currentPointIndex s' = Some p ∧
          activePointId s' = Some (Checkpoint.id p)) ∧
  (Route.points r = [] →
     activePointId s' = None ∧ currentPointIndex s' = currentPointIndex s).
Proof.
  intros s' r. unfold s', resetAll.
  set (s3 := setPointsVisibility true _).
  assert (currentRoute s3 = currentRoute s ∧ currentPointIndex s3 = currentPointIndex s ∧
          pointsVisible s3 = true ∧ activePointId s3 = None) as (Hr3 & Hi3 & Hv3 & Ha3)
    by done.
  destruct (showRoute_globals routes (Route.id (currentRoute s3)) s3)
    as (Hr & Hi & Hv & Ha).
  rewrite Hr3, Hi3 in *. fold r in Hr, Hi, Ha.
  rewrite Hr, Hi, Hv, Ha, Hv3. clear Hr Hi Hv Ha.
  split; [done|]. split; [done|].
  destruct (Route.points r) as [|p0 pts] eqn:Hpts.
  - repeat split; first [done | simpl; lia].
  - destruct (Nat.leb_spec (length (p0 :: pts)) (currentPointIndex s)) as [Hge|Hlt].
    + repeat split; try done; try lia. intros _. by exists p0.
    + repeat split; try done; try lia. intros _.
      destruct (lookup_lt_is_Some_2 (p0 :: pts) (currentPointIndex s) Hlt) as [p Hp].
      exists p. by rewrite Hp.
Qed.

Lemma resetAll_effect_witness :
  currentPointIndex (resetAll routes stateAtR) = currentPointIndex stateAtR ∧
  ∃ p, Route.points routeA !! currentPointIndex (resetAll routes stateAtR) = Some p ∧
       activePointId (resetAll routes stateAtR) = Some (Checkpoint.id p).
Proof.
  destruct (resetAll_effect routes stateAtR) as (_ & _ & Hkeep & _ & Hact & _).
  split.
  - apply Hkeep. vm_compute. lia.
  - apply Hact. discriminate.
Defined.

(** *** Paging *)

(** C9.  From a state whose [currentPointIndex] is within
    [0, len - 1], [len] being the number of points of the current
    route, the prev and next buttons leave it within [0, len - 1] (and
    leave the route alone): prev at index 0 and next at index [len - 1]
    change nothing at all, and otherwise the index moves by exactly
    one. *)
Theorem paging_stays_in_range (s : State) :
  let len := length (Route.points (currentRoute s)) in
  (currentPointIndex s < len)%nat →
  (currentPointIndex (prevClick s) < len)%nat ∧
  (currentPointIndex (nextClick s) < len)%nat ∧
  currentRoute (prevClick s) = currentRoute s ∧
  currentRoute (nextClick s) = currentRoute s ∧
  (currentPointIndex s = 0%nat → prevClick s = s) ∧
  (currentPointIndex s = (len - 1)%nat → nextClick s = s) ∧
  ((0 < currentPointIndex s)%nat →
     currentPointIndex (prevClick s) = (currentPointIndex s - 1)%nat) ∧
  ((currentPointIndex s < len - 1)%nat →
     currentPointIndex (nextClick s) = (currentPointIndex s + 1)%nat).
Proof.
  intros len Hin.
  assert (currentRoute (prevClick s) = currentRoute s ∧
          currentPointIndex (prevClick s)
          = if (0 <? currentPointIndex s)%nat
            then (currentPointIndex s - 1)%nat else currentPointIndex s) as [Hpr Hpi].
  { unfold prevClick. destruct (0 <? currentPointIndex s)%nat; [|done].
    destruct (renderPanel_globals
                (setCurrentPointIndex (currentPointIndex s - 1) s)) as (-> & -> & _).
    done. }
  assert (currentRoute (nextClick s) = currentRoute s ∧
          currentPointIndex (nextClick s)
          = if (Z.of_nat (currentPointIndex s) <? Z.of_nat len - 1)%Z
            then (currentPointIndex s + 1)%nat else currentPointIndex s) as [Hnr Hni].
  { unfold nextClick. fold len.
    destruct (Z.of_nat (currentPointIndex s) <? Z.of_nat len - 1)%Z; [|done].
    destruct (renderPanel_globals
                (setCurrentPointIndex (currentPointIndex s + 1) s)) as (-> & -> & _).
    done. }
  rewrite Hpr, Hnr, Hpi, Hni.
  destruct (Nat.ltb_spec 0 (currentPointIndex s)) as [Hpos|Hzero];
    destruct (Z.ltb_spec (Z.of_nat (currentPointIndex s)) (Z.of_nat len - 1)) as [Hlt|Hlast];
    repeat split; try done; try lia.
  all: try (intros Hz; unfold prevClick; rewrite Hz; reflexivity).
  all: try (intros Hl; unfold nextClick; fold len;
            destruct (Z.ltb_spec (Z.of_nat (currentPointIndex s)) (Z.of_nat len - 1));
            [lia|reflexivity]).
Qed.

Lemma paging_stays_in_range_witness :
  (currentPointIndex (prevClick stateAtR) < 7)%nat ∧
  (currentPointIndex (nextClick stateAtR) < 7)%nat ∧
  currentPointIndex (prevClick stateAtR) = 1%nat ∧
  currentPointIndex (nextClick stateAtR) = 3%nat.
Proof.
  assert (currentPointIndex stateAtR
          < length (Route.points (currentRoute stateAtR)))%nat as Hin
    by (vm_compute; lia).
  destruct (paging_stays_in_range stateAtR Hin)
    as (Hp & Hn & _ & _ & _ & _ & Hdec & Hinc).
  split; [exact Hp|]. split; [exact Hn|]. split.
  - rewrite Hdec; [reflexivity|]. vm_compute. lia.
  - rewrite Hinc; [reflexivity|]. vm_compute. lia.
Defined.

(** *** Highlight exclusivity *)

Lemma findIndex_in_route pid (r : Route.t) :
  pid ∈ routeIds r →
  ∃ idx p, findIndex pid (Route.points r) = Some idx ∧
           Route.points r !! idx = Some p ∧ Checkpoint.id p = pid.
Proof.
  intros Hin. unfold findIndex. fold (routeIds r).
  destruct (indexOf pid (routeIds r)) as [idx|] eqn:Hidx.
  - apply indexOf_lookup in Hidx. unfold routeIds in Hidx.
    rewrite list_lookup_fmap in Hidx.
    destruct (Route.points r !! idx) as [p|] eqn:Hp; [|done].
    injection Hidx as Hid. by exists idx, p.
  - by apply indexOf_None in Hidx.
Qed.

Lemma hotspotClick_in_route routes pid s :
  pid ∈ routeIds (currentRoute s) →
  activePointId (hotspotClick routes pid s) = Some pid ∧
  currentRoute (hotspotClick routes pid s) = currentRoute s.
Proof.
  intros (idx & p & Hidx & Hp & Hid)%findIndex_in_route.
  unfold hotspotClick. rewrite Hidx.
  destruct (renderPanel_globals (setCurrentPointIndex idx s)) as (-> & _ & _ & ->).
  cbn [setCurrentPointIndex currentRoute currentPointIndex].
  by rewrite Hp, Hid.
Qed.

(** *** The selected class follows the active checkpoint *)

Lemma getHotspotById_indexOf id hs :
  getHotspotById id hs = indexOf id (map data_id hs).
Proof. induction hs as [|h hs IH]; simpl; [done|]. by rewrite IH. Qed.

Lemma getHotspotById_lookup id hs i :
  getHotspotById id hs = Some i → ∃ h, hs !! i = Some h ∧ data_id h = id.
Proof.
  rewrite getHotspotById_indexOf. intros Hi%indexOf_lookup.
  rewrite list_lookup_fmap in Hi.
  destruct (hs !! i) as [h|]; [|done]. injection Hi as Hi. by exists h.
Qed.

Lemma data_ids_map f hs :
  (∀ h, data_id (f h) = data_id h) → map data_id (map f hs) = map data_id hs.
Proof. intros Hf. induction hs as [|h hs IH]; simpl; [done|]. by rewrite Hf, IH. Qed.

Lemma data_ids_alter f i hs :
  (∀ h, data_id (f h) = data_id h) → map data_id (alter f i hs) = map data_id hs.
Proof.
  intros Hf. revert i. induction hs as [|h hs IH]; intros [|i]; simpl; try done.
  - by rewrite Hf.
  - f_equal. apply IH.
Qed.

Lemma data_ids_imap f hs :
  (∀ i h, data_id (f i h) = data_id h) → map data_id (imap f hs) = map data_id hs.
Proof.
  revert f. induction hs as [|h hs IH]; intros f Hf; simpl; [done|].
  rewrite Hf. f_equal. apply IH. intros i h'. apply Hf.
Qed.

Lemma data_id_setDotColor color h : data_id (setDotColor color h) = data_id h.
Proof. unfold setDotColor. by destruct (dot h). Qed.

Lemma selected_setDotColor color h : selected (setDotColor color h) = selected h.
Proof. unfold setDotColor. by destruct (dot h). Qed.

Lemma selectedIsActive_map f s s' :
  (∀ h, data_id (f h) = data_id h ∧ selected (f h) = selected h) →
  hotspots s' = map f (hotspots s) →
  activePointId s' = activePointId s →
  selectedIsActive s → selectedIsActive s'.
Proof.
  intros Hf Hhs Ha Hinv j h Hj Hsel. rewrite Hhs in Hj.
  rewrite list_lookup_fmap in Hj.
  destruct (hotspots s !! j) as [h0|] eqn:Hh0; [|done].
  injection Hj as <-. destruct (Hf h0) as [Hd Hs]. rewrite Hs in Hsel.
  destruct (Hinv j h0 Hh0 Hsel) as [Hact Hget].
  rewrite Hd, Ha, Hhs. split; [done|].
  rewrite getHotspotById_indexOf, data_ids_map by apply Hf.
  by rewrite <- getHotspotById_indexOf.
Qed.

Lemma HighlightInv_frame s s' :
  hotspots s' = hotspots s → activePointId s' = activePointId s →
  currentRoute s' = currentRoute s →
  HighlightInv s → HighlightInv s'.
Proof.
  intros Hhs Ha Hr (Hsel & Hne & Hids). unfold HighlightInv, selectedIsActive in *.
  rewrite Hhs, Ha, Hr. done.
Qed.

Lemma dropSelected_unselected s :
  selectedIsActive s → activePointId s ≠ Some "" →
  ∀ j h, dropSelected (activePointId s) (hotspots s) !! j = Some h → selected h = false.
Proof.
  intros Hinv Hne j h Hj.
  destruct (selected h) eqn:Hsel; [exfalso|done].
  unfold dropSelected in Hj.
  destruct (activePointId s) as [a|] eqn:Ha.
  - assert (JS.truthy a = true) as Htr
      by (apply truthy_true; intros ->; by apply Hne).
    rewrite Htr in Hj.
    destruct (getHotspotById a (hotspots s)) as [prev|] eqn:Hprev.
    + rewrite list_lookup_alter in Hj. case_decide as Hpj.
      * subst prev. destruct (hotspots s !! j) as [h0|]; [|done].
        injection Hj as <-. discriminate Hsel.
      * destruct (Hinv j h Hj Hsel) as [Hact Hget].
        rewrite Ha in Hact. injection Hact as ->. congruence.
    + destruct (Hinv j h Hj Hsel) as [Hact Hget].
      rewrite Ha in Hact. injection Hact as ->. congruence.
  - destruct (Hinv j h Hj Hsel) as [Hact _]. congruence.
Qed.

Lemma dropSelected_ids a hs : map data_id (dropSelected a hs) = map data_id hs.
Proof.
  unfold dropSelected. destruct a as [a|]; [|done].
  destruct (JS.truthy a); [|done].
  destruct (getHotspotById a hs); [|done].
  by apply data_ids_alter.
Qed.

Lemma clearDim_unselected hs :
  (∀ j h, hs !! j = Some h → selected h = false) →
  ∀ j h, clearDim hs !! j = Some h → selected h = false.
Proof.
  intros Hun j h Hj. unfold clearDim in Hj. rewrite list_lookup_fmap in Hj.
  destruct (hs !! j) as [h0|] eqn:Hh0; [|done].
  injection Hj as <-. exact (Hun j h0 Hh0).
Qed.

Lemma markTarget_selected visible id hs :
  (∀ j h, hs !! j = Some h → selected h = false) →
  ∀ j h, markTarget visible id hs !! j = Some h → selected h = true →
    data_id h = id ∧ getHotspotById id (markTarget visible id hs) = Some j.
Proof.
  intros Hun j h Hj Hsel. unfold markTarget in *.
  destruct (getHotspotById id hs) as [t|] eqn:Ht.
  - rewrite list_lookup_imap in Hj.
    destruct (hs !! j) as [h0|] eqn:Hh0; [|done].
    injection Hj as <-.
    destruct (Nat.eqb_spec j t) as [->|Hjt].
    + destruct (getHotspotById_lookup id hs t Ht) as (h1 & Hh1 & Hid).
      assert (h1 = h0) as -> by congruence.
      split.
      * cbn [withOpacity withZIndex data_id]. by rewrite data_id_setDotColor.
      * rewrite getHotspotById_indexOf, data_ids_imap.
        -- by rewrite <- getHotspotById_indexOf.
        -- intros i h'. destruct (Nat.eqb i t); [|done].
           cbn [withOpacity withZIndex data_id]. by rewrite data_id_setDotColor.
    + cbn [withClasses selected] in Hsel. rewrite (Hun j h0 Hh0) in Hsel. done.
  - rewrite (Hun j h Hj) in Hsel. done.
Qed.

Lemma highlightPoint_selected id s :
  selectedIsActive s → activePointId s ≠ Some "" →
  selectedIsActive (highlightPoint id s).
Proof.
  intros Hinv Hne. unfold highlightPoint.
  destruct (isActive s id); [done|].
  intros j h Hj Hsel.
  cbn [setActivePointId setHotspots hotspots activePointId] in *.
  assert (∀ j h, clearDim (dropSelected (activePointId s) (hotspots s)) !! j = Some h →
                 selected h = false) as Hun
    by (apply clearDim_unselected, dropSelected_unselected; done).
  destruct (markTarget_selected (pointsVisible s) id _ Hun j h Hj Hsel) as [-> Hget].
  done.
Qed.

Lemma setPointsVisibility_inv visible s :
  HighlightInv s → HighlightInv (setPointsVisibility visible s).
Proof.
  intros (Hsel & Hne & Hids). split; [|done].
  by apply (selectedIsActive_map (withOpacity (opacityOf visible)) s).
Qed.

Lemma unhighlightAll_inv s :
  idsTruthy (currentRoute s) → HighlightInv (unhighlightAll s).
Proof.
  intros Hids. split; [|done].
  intros j h Hj Hsel. exfalso.
  cbn [unhighlightAll setActivePointId setHotspots hotspots] in Hj.
  rewrite list_lookup_fmap in Hj.
  destruct (hotspots s !! j) as [h0|]; [|done].
  injection Hj as <-.
  cbn [withZIndex withOpacity selected] in Hsel.
  rewrite selected_setDotColor in Hsel. done.
Qed.

Lemma highlightPoint_inv id s :
  id ≠ "" → HighlightInv s → HighlightInv (highlightPoint id s).
Proof.
  intros Hid (Hsel & Hne & Hids).
  destruct (highlightPoint_globals id s) as (Hr & _ & _ & Ha).
  split; [by apply highlightPoint_selected|].
  rewrite Ha, Hr. split; [congruence|done].
Qed.

Lemma renderPanel_inv s : HighlightInv s → HighlightInv (renderPanel s).
Proof.
  intros Hinv. unfold renderPanel.
  destruct (Route.points (currentRoute s) !! currentPointIndex s) as [p|] eqn:Hp; [|done].
  apply setPointsVisibility_inv, highlightPoint_inv.
  - destruct Hinv as (_ & _ & Hids).
    exact (proj1 (Forall_lookup _ _) Hids _ _ Hp).
  - by apply (HighlightInv_frame s).
Qed.

Lemma findRoute_idsTruthy routes routeId current :
  Forall idsTruthy routes → idsTruthy current →
  idsTruthy (findRoute routes routeId current).
Proof.
  intros Hall Hcur. unfold findRoute.
  destruct (find _ routes) as [r|] eqn:Hfind.
  - apply find_some in Hfind as [Hin _].
    apply list_elem_of_In in Hin. exact (proj1 (Forall_forall _ _) Hall r Hin).
  - destruct routes as [|r0 ?]; [done|]. by apply Forall_cons in Hall as [? _].
Qed.

Lemma showRoute_inv routes routeId s :
  Forall idsTruthy routes → HighlightInv s → HighlightInv (showRoute routes routeId s).
Proof.
  intros Hall (Hsel & Hne & Hids). unfold showRoute.
  set (r := findRoute routes routeId (currentRoute s)).
  assert (idsTruthy r) as Hr by by apply findRoute_idsTruthy.
  set (s1 := setCurrentRoute r s).
  change (currentRoute s1) with r.
  set (s2 := setHotspots _ s1).
  assert (HighlightInv s2) as Hinv2.
  { split; [|done].
    eapply (selectedIsActive_map _ s s2); [|reflexivity|done|done].
    intros h. cbn beta. destruct (isActive s1 (data_id h)); [done|].
    cbn [withOpacity data_id selected].
    by rewrite data_id_setDotColor, selected_setDotColor. }
  apply (HighlightInv_frame
           (match Route.points r with
            | _ :: _ =>
                renderPanel (if (length (Route.points r) <=? currentPointIndex s2)%nat
                             then setCurrentPointIndex 0 s2 else s2)
            | [] => unhighlightAll
                      (setPanel "No points" (Route.name r)
                         "No points configured for this route." [] s2)
            end)); try done.
  destruct (Route.points r).
  - by apply unhighlightAll_inv.
  - apply renderPanel_inv.
    destruct (length (_ :: _) <=? currentPointIndex s2)%nat; [|done].
    by apply (HighlightInv_frame s2).
Qed.

Lemma resetAll_inv routes s :
  Forall idsTruthy routes → HighlightInv s → HighlightInv (resetAll routes s).
Proof.
  intros Hall (Hsel & Hne & Hids). unfold resetAll.
  apply showRoute_inv; [done|].
  apply setPointsVisibility_inv.
  apply (HighlightInv_frame (unhighlightAll s)); try done.
  by apply unhighlightAll_inv.
Qed.

Lemma firstRouteWith_elem pid routes r f :
  firstRouteWith pid routes = Some (r, f) → r ∈ routes.
Proof.
  induction routes as [|r0 routes IH]; simpl; [done|].
  destruct (findIndex pid (Route.points r0)).
  - intros [= <- _]. left.
  - intros Hrest. right. by apply IH.
Qed.

Lemma hotspotClick_inv routes pid s :
  Forall idsTruthy routes → pid ≠ "" →
  HighlightInv s → HighlightInv (hotspotClick routes pid s).
Proof.
  intros Hall Hpid Hinv. unfold hotspotClick.
  destruct (findIndex pid (Route.points (currentRoute s))) as [idx|].
  { apply renderPanel_inv. by apply (HighlightInv_frame s). }
  destruct (firstRouteWith pid routes) as [[r f]|] eqn:Hfirst.
  - apply renderPanel_inv.
    eapply HighlightInv_frame; [reflexivity..|].
    apply showRoute_inv; [done|].
    destruct Hinv as (Hsel & Hne & _). split; [done|]. split; [done|].
    apply firstRouteWith_elem in Hfirst.
    exact (proj1 (Forall_forall _ _) Hall r Hfirst).
  - eapply HighlightInv_frame; [reflexivity..|].
    by apply highlightPoint_inv.
Qed.

Lemma handle_inv routes e s :
  Forall idsTruthy routes → clickOk e →
  HighlightInv s → HighlightInv (handle routes e s).
Proof.
  intros Hall Hok Hinv. destruct e as [routeId|pid| | | |]; simpl.
  - by apply showRoute_inv.
  - by apply hotspotClick_inv.
  - unfold prevClick. destruct (0 <? currentPointIndex s)%nat; [|done].
    apply renderPanel_inv. by apply (HighlightInv_frame s).
  - unfold nextClick. destruct (_ <? _)%Z; [|done].
    apply renderPanel_inv. by apply (HighlightInv_frame s).
  - by apply setPointsVisibility_inv.
  - by apply resetAll_inv.
Qed.

Lemma run_inv routes es s :
  Forall idsTruthy routes → Forall clickOk es →
  HighlightInv s → HighlightInv (run routes es s).
Proof.
  intros Hall Hes. revert s.
  induction Hes as [|e es He Hes IH]; intros s Hinv; [done|].
  apply IH. by apply handle_inv.
Qed.

(** On the page too the highlight is exclusive: when checkpoint ids are
    non-empty strings, after every sequence of events at most one
    hotspot carries the [selected] class, and it is the hotspot of the
    active checkpoint. *)
Lemma selected_class_exclusive routes es s :
  Forall idsTruthy routes → Forall clickOk es → HighlightInv s →
  ∀ i j hi hj,
    hotspots (run routes es s) !! i = Some hi → selected hi = true →
    hotspots (run routes es s) !! j = Some hj → selected hj = true →
    i = j ∧ active (run routes es s) (data_id hi).
Proof.
  intros Hall Hes Hinv i j hi hj Hi Hsi Hj Hsj.
  destruct (run_inv routes es s Hall Hes Hinv) as (Hsel & _ & _).
  destruct (Hsel i hi Hi Hsi) as [Hai Hgi].
  destruct (Hsel j hj Hj Hsj) as [Haj Hgj].
  split; [|exact Hai].
  assert (data_id hi = data_id hj) as Heq by congruence.
  rewrite Heq in Hgi. congruence.
Qed.

Lemma routes_idsTruthy : Forall idsTruthy routes.
Proof. repeat constructor; discriminate. Qed.

Lemma init_inv : HighlightInv (init routes loaded).
Proof.
  apply setPointsVisibility_inv, showRoute_inv; [apply routes_idsTruthy|].
  split; [|split]; [|done|].
  - intros j h Hj Hsel. exfalso.
    change (hotspots (populateStartPointOptions loaded)) with hotspotsA in Hj.
    unfold hotspotsA in Hj. rewrite list_lookup_fmap in Hj.
    destruct (_ !! j); [|done]. injection Hj as <-. done.
  - repeat constructor; discriminate.
Qed.

(** Why the ids must be non-empty: [highlightPoint] skips the clean-up
    of the previous hotspot when [activePointId] is falsy, so on a page
    with a hotspot whose [data-id] is the empty string a click on it and
    then on P leaves both hotspots selected. *)
Example empty_data_id_keeps_selected :
  let page := mkHotspot "" false false None "" "" :: hotspotsA in
  let s := run routes [HotspotClick ""; HotspotClick "P"]
             (init routes (setHotspots page loaded)) in
  map data_id (filter (fun h => selected h = true) (hotspots s)) = [""; "P"] ∧
  activePointId s = Some "P".
Proof. vm_compute. done. Qed.

(** C8.  After every sequence of events at most one checkpoint is
    active, [activePointId] naming it; and clicking checkpoint X and
    then checkpoint Y, two different checkpoints of the current route,
    makes X active and then Y active and X no longer.  The page agrees:
    with non-empty checkpoint ids, after every sequence of events at
    most one hotspot carries the [selected] class, the one of the
    active checkpoint. *)
Theorem highlight_exclusive (routes : list Route.t) :
  (∀ (es : list Event) (s : State) (c1 c2 : string),
     active (run routes es s) c1 → active (run routes es s) c2 → c1 = c2) ∧
  (∀ (s : State) (X Y : string),
     X ≠ Y → X ∈ routeIds (currentRoute s) → Y ∈ routeIds (currentRoute s) →
     active (run routes [HotspotClick X] s) X ∧
     active (run routes [HotspotClick X; HotspotClick Y] s) Y ∧
     ¬ active (run routes [HotspotClick X; HotspotClick Y] s) X) ∧
  (∀ (es : list Event) (s : State),
     Forall idsTruthy routes → Forall clickOk es → HighlightInv s →
     ∀ i j hi hj,
       hotspots (run routes es s) !! i = Some hi → selected hi = true →
       hotspots (run routes es s) !! j = Some hj → selected hj = true →
       i = j ∧ active (run routes es s) (data_id hi)).
Proof.
  split; [|split].
  - unfold active. intros es s c1 c2 H1 H2. congruence.
  - intros s X Y Hne HX HY. unfold active. cbn [run fold_left handle].
    destruct (hotspotClick_in_route routes X s HX) as [HaX HrX].
    rewrite <- HrX in HY.
    destruct (hotspotClick_in_route routes Y _ HY) as [HaY _].
    split; [exact HaX|]. split; [exact HaY|].
    rewrite HaY. congruence.
  - intros es s. apply selected_class_exclusive.
Qed.

Lemma highlight_exclusive_witness :
  active (run routes [HotspotClick "Q"; HotspotClick "T"] (init routes loaded)) "T" ∧
  ¬ active (run routes [HotspotClick "Q"; HotspotClick "T"] (init routes loaded)) "Q" ∧
  ∀ i j hi hj,
    hotspots (run routes [HotspotClick "Q"; HotspotClick "T"] (init routes loaded)) !! i
      = Some hi → selected hi = true →
    hotspots (run routes [HotspotClick "Q"; HotspotClick "T"] (init routes loaded)) !! j
      = Some hj → selected hj = true →
    i = j.
Proof.
  destruct (highlight_exclusive routes) as (_ & Hclicks & Hpage).
  assert ("Q" ≠ "T") as Hne by discriminate.
  assert ("Q" ∈ routeIds (currentRoute (init routes loaded))) as HQ by compute_done.
  assert ("T" ∈ routeIds (currentRoute (init routes loaded))) as HT by compute_done.
  destruct (Hclicks (init routes loaded) "Q" "T" Hne HQ HT) as (_ & HaT & HnQ).
  split; [exact HaT|]. split; [exact HnQ|].
  intros i j hi hj Hi Hsi Hj Hsj.
  assert (Forall clickOk [HotspotClick "Q"; HotspotClick "T"]) as Hes
    by (repeat constructor; discriminate).
  exact (proj1 (Hpage _ _ routes_idsTruthy Hes init_inv i j hi hj Hi Hsi Hj Hsj)).
Defined.

(** * Further properties of the ETA engine *)

(** ** The rows of a schedule, leg by leg *)

Lemma legRows_cons tm counter minutes x y path :
  legRows tm counter minutes (x :: y :: path)
  = mkLegRow (S counter) x y (getLegTime tm x y)
      (formatHoursFromMinutes (getLegTime tm x y))
      (minutesToHHMM (minutes + getLegTime tm x y))
    :: legRows tm (S counter) (minutes + getLegTime tm x y) (y :: path).
Proof. reflexivity. Qed.

(** Induction over a path two neighbours at a time. *)
Lemma path_ind (P : list string → Prop) :
  P [] → (∀ x, P [x]) → (∀ x y path, P (y :: path) → P (x :: y :: path)) →
  ∀ path, P path.
Proof.
  intros Hnil Hone Hstep path.
  induction path as [|x path IH]; [exact Hnil|].
  destruct path as [|y path]; [apply Hone|]. by apply Hstep.
Qed.

Lemma calculateETAs_rows tm route s origin :
  s ≠ "" →
  rows (calculateETAs tm route (Some s) origin)
  = legRows tm 0 (parseStartMinutes s) (schedulePath tm route origin).
Proof.
  intros Hs. unfold schedulePath.
  destruct (buildTraversalSequence tm route origin) as [|t0 rest] eqn:Htrav.
  - unfold calculateETAs. apply truthy_true in Hs. by rewrite Hs, Htrav.
  - rewrite (calculateETAs_unfold tm route s origin t0 rest Hs Htrav).
    cbn [rows]. by destruct (String.eqb origin t0).
Qed.

Lemma legRows_length tm counter minutes path :
  length (legRows tm counter minutes path) = (length path - 1)%nat.
Proof.
  revert counter minutes. induction path as [| |x y path IH] using path_ind;
    intros counter minutes; [done..|].
  rewrite legRows_cons. cbn [length]. rewrite IH. simpl. lia.
Qed.

Lemma legRows_legIndex tm counter minutes path :
  map legIndex (legRows tm counter minutes path) = seq (S counter) (length path - 1).
Proof.
  revert counter minutes. induction path as [| |x y path IH] using path_ind;
    intros counter minutes; [done..|].
  rewrite legRows_cons. cbn [map legIndex]. rewrite IH.
  by replace (length (x :: y :: path) - 1)%nat with (S (length (y :: path) - 1))
    by (simpl; lia).
Qed.

Lemma legRows_from_to tm counter minutes path :
  map from (legRows tm counter minutes path) = take (length path - 1) path ∧
  map to (legRows tm counter minutes path) = drop 1 path.
Proof.
  revert counter minutes. induction path as [| |x y path IH] using path_ind;
    intros counter minutes; [done..|].
  rewrite legRows_cons. cbn [map from to].
  destruct (IH (S counter) (minutes + getLegTime tm x y)) as [-> ->].
  split; [|done].
  by replace (length (x :: y :: path) - 1)%nat with (S (length (y :: path) - 1))
    by (simpl; lia).
Qed.

Lemma legRows_minutes tm counter minutes path :
  Forall (fun r => legTimeMin r = getLegTime tm (from r) (to r) ∧
                   legTimeHrs r = formatHoursFromMinutes (legTimeMin r))
         (legRows tm counter minutes path).
Proof.
  revert counter minutes. induction path as [| |x y path IH] using path_ind;
    intros counter minutes; [by constructor..|].
  rewrite legRows_cons. constructor; [done|]. apply IH.
Qed.

Lemma legRows_eta tm counter minutes path k r :
  legRows tm counter minutes path !! k = Some r →
  eta r = minutesToHHMM (minutes + sumMinutes (take (S k) (legRows tm counter minutes path))).
Proof.
  revert counter minutes k r. induction path as [| |x y path IH] using path_ind;
    intros counter minutes k r; [done..|].
  rewrite legRows_cons. destruct k as [|k].
  - intros [= <-]. rewrite firstn_cons, take_0.
    cbn [sumMinutes foldr eta legTimeMin]. f_equal. lia.
  - intros Hk. change ((?a :: ?l) !! S k) with (l !! k) in Hk.
    rewrite (IH _ _ _ _ Hk). f_equal.
    rewrite (firstn_cons (S k)).
    unfold sumMinutes. cbn [foldr legTimeMin]. lia.
Qed.

Lemma schedulePath_head tm route origin x path :
  schedulePath tm route origin = x :: path → x = origin.
Proof.
  unfold schedulePath. destruct (buildTraversalSequence tm route origin) as [|t0 rest]; [done|].
  destruct (String.eqb_spec origin t0) as [->|_]; by intros [= <- _].
Qed.

Lemma suffix_last_eq (l k : list string) :
  l `suffix_of` k → l ≠ [] → last l = last k.
Proof.
  intros [pre ->] Hne. destruct l as [|x l]; [done|].
  by rewrite last_app_cons.
Qed.

Lemma schedulePath_last tm route origin :
  Route.points route ≠ [] →
  last (schedulePath tm route origin) = last (routeIds route).
Proof.
  intros Hne. unfold schedulePath.
  pose proof (buildTraversalSequence_suffix tm route origin) as Hsuf.
  pose proof (traversal_nonempty tm route origin Hne) as Hnil.
  destruct (buildTraversalSequence tm route origin) as [|t0 rest]; [done|].
  rewrite <- (suffix_last_eq _ _ Hsuf Hnil).
  destruct (String.eqb origin t0); [done|].
  by rewrite last_cons_cons.
Qed.

Section Schedule.
Variable tm : gmap string (gmap string N).
Variable route : Route.t.

(** X1.  The legs of a schedule are numbered 1, 2, 3, ... without gaps.
    From a start point on the route, at (first) position [i], there is
    one leg per remaining step of the route, [len - 1 - i] in all; from
    a start point outside the route there is one leg more than the
    traversal has steps, as many as it has checkpoints. *)
Theorem schedule_numbering (s origin : string) :
  s ≠ "" →
  let rs := rows (calculateETAs tm route (Some s) origin) in
  map legIndex rs = seq 1 (length rs) ∧
  (∀ i, indexOf origin (routeIds route) = Some i →
        length rs = (length (routeIds route) - 1 - i)%nat) ∧
  (origin ∉ routeIds route →
     length rs = length (buildTraversalSequence tm route origin)).
Proof.
  intros Hs rs. unfold rs. rewrite (calculateETAs_rows tm route s origin Hs).
  rewrite legRows_legIndex, legRows_length. split; [done|].
  unfold schedulePath, buildTraversalSequence. fold (routeIds route). split.
  - intros i Hi. rewrite Hi.
    pose proof (indexOf_lookup _ _ _ Hi) as Hl.
    destruct (pushFrom_nonempty Hl) as [rest Hrest].
    assert (length (pushFrom i (routeIds route)) = length (routeIds route) - i)%nat
      as Hlen by apply length_drop.
    rewrite Hrest in Hlen |- *. rewrite String.eqb_refl. lia.
  - intros Hout. pose proof Hout as Hnone. apply indexOf_None in Hnone. rewrite Hnone.
    pose proof (buildTraversalSequence_suffix tm route origin) as Hsuf.
    unfold buildTraversalSequence in Hsuf. fold (routeIds route) in Hsuf.
    rewrite Hnone in Hsuf.
    destruct (match firstReachable tm origin (routeIds route) with
              | Some i => pushFrom i (routeIds route)
              | None => routeIds route
              end) as [|t0 rest] eqn:Htrav; [done|].
    destruct (String.eqb_spec origin t0) as [->|_]; [|simpl; lia].
    exfalso. apply Hout. eapply elem_of_suffix; [|exact Hsuf]. left.
Qed.

(** X2.  The legs of a schedule form one path: the first leg leaves
    from the start point, every leg leaves from where the previous one
    arrived, and the last leg arrives at the last point of the route. *)
Theorem schedule_is_a_path (s origin : string) (r0 : LegRow) (rest : list LegRow) :
  s ≠ "" →
  rows (calculateETAs tm route (Some s) origin) = r0 :: rest →
  from r0 = origin ∧
  (∀ k r r', (r0 :: rest) !! k = Some r → (r0 :: rest) !! S k = Some r' →
             to r = from r') ∧
  (∃ rl, last (r0 :: rest) = Some rl ∧ last (routeIds route) = Some (to rl)).
Proof.
  intros Hs Hrows. rewrite (calculateETAs_rows tm route s origin Hs) in Hrows.
  set (path := schedulePath tm route origin) in *.
  destruct (legRows_from_to tm 0 (parseStartMinutes s) path) as [Hfrom Hto].
  pose proof (legRows_length tm 0 (parseStartMinutes s) path) as Hlen.
  rewrite Hrows in Hfrom, Hto, Hlen.
  assert (Route.points route ≠ []) as Hne.
  { intros Hnil. unfold path, schedulePath in Hrows.
    by rewrite (traversal_empty_route tm route origin Hnil) in Hrows. }
  destruct path as [|x path'] eqn:Hpath; [done|].
  pose proof (schedulePath_head tm route origin x path' Hpath) as ->.
  split; [|split].
  - destruct path'; [done|]. by injection Hfrom as ->.
  - intros k r r' Hk Hk'.
    assert (map to (r0 :: rest) !! k = Some (to r)) as Ht
      by (rewrite list_lookup_fmap, Hk; done).
    assert (map from (r0 :: rest) !! S k = Some (from r')) as Hf
      by (rewrite list_lookup_fmap, Hk'; done).
    rewrite Hto in Ht. rewrite Hfrom in Hf.
    rewrite lookup_drop in Ht. rewrite lookup_take_Some in Hf.
    destruct Hf as [Hf _]. change (1 + k)%nat with (S k) in Ht. congruence.
  - assert (last (map to (r0 :: rest)) = last (routeIds route)) as Hlast.
    { rewrite Hto. rewrite <- (schedulePath_last tm route origin Hne).
      fold path. rewrite Hpath. destruct path' as [|y path'']; [discriminate Hrows|].
      change (drop 1 (origin :: y :: path'')) with (y :: path'').
      by rewrite last_cons_cons. }
    rewrite fmap_last in Hlast.
    destruct (last (r0 :: rest)) as [rl|] eqn:Hrl; [|by apply last_None in Hrl].
    by exists rl.
Qed.

(** X3.  Every leg of a schedule carries the leg time the graph gives
    for its two ends, and shows that same time in hours. *)
Theorem rows_carry_graph_times (s origin : string) :
  s ≠ "" →
  Forall (fun r => legTimeMin r = getLegTime tm (from r) (to r) ∧
                   legTimeHrs r = formatHoursFromMinutes (legTimeMin r))
         (rows (calculateETAs tm route (Some s) origin)).
Proof.
  intros Hs. rewrite (calculateETAs_rows tm route s origin Hs).
  apply legRows_minutes.
Qed.

(** X4.  Arrival times accumulate: for a clock-formatted start time,
    the eta of each leg is the clock string of the start time plus the
    minutes of all legs up to and including it, and on a route with
    points [finalEta] is the clock string of the start time plus
    [totalMinutes]. *)
Theorem etas_accumulate (s origin : string) :
  isClockTime s = true →
  let res := calculateETAs tm route (Some s) origin in
  (∀ k r, rows res !! k = Some r →
     eta r = minutesToHHMM (parseStartMinutes s + sumMinutes (take (S k) (rows res)))) ∧
  (Route.points route ≠ [] →
     finalEta res = Some (minutesToHHMM (parseStartMinutes s + sumMinutes (rows res)))).
Proof.
  intros Hclock res. pose proof (isClockTime_truthy s Hclock) as Hs.
  assert (rows res = legRows tm 0 (parseStartMinutes s) (schedulePath tm route origin))
    as Hrows by apply (calculateETAs_rows tm route s origin Hs).
  split.
  - intros k r Hk. rewrite Hrows in Hk |- *. by apply legRows_eta.
  - intros Hne.
    destruct (buildTraversalSequence tm route origin) as [|t0 rest] eqn:Htrav.
    { by apply traversal_nonempty with (tm := tm) (startPoint := origin) in Hne. }
    assert (finalEta res = Some match last (rows res) with
                                | Some r => eta r
                                | None => minutesToHHMM (parseStartMinutes s)
                                end) as ->.
    { unfold res.
      by rewrite (calculateETAs_unfold tm route s origin t0 rest Hs Htrav). }
    f_equal. destruct (last (rows res)) as [rl|] eqn:Hlast.
    + rewrite last_lookup in Hlast. rewrite Hrows in Hlast |- *.
      rewrite (legRows_eta _ _ _ _ _ _ Hlast). f_equal. f_equal. f_equal.
      apply take_ge. lia.
    + apply last_None in Hlast. rewrite Hlast. simpl. f_equal. lia.
Qed.

End Schedule.

Lemma schedule_numbering_witness :
  map legIndex (rows (calculateETAs timeMatrix routeA (Some "06:00") "R")) = [1; 2; 3; 4]%nat ∧
  length (rows (calculateETAs timeMatrix routeA (Some "06:00") "R")) = 4%nat.
Proof.
  assert ("06:00" ≠ "") as Hs by discriminate.
  destruct (schedule_numbering timeMatrix routeA "06:00" "R" Hs) as (Hidx & Hon & _).
  assert (indexOf "R" (routeIds routeA) = Some 2%nat) as Hi by reflexivity.
  pose proof (Hon 2%nat Hi) as Hlen. rewrite Hlen in Hidx.
  split; [exact Hidx|exact Hlen].
Defined.

Lemma schedule_is_a_path_witness :
  ∃ r0 rest,
    rows (calculateETAs timeMatrix routeA (Some "05:00") "VOCC") = r0 :: rest ∧
    from r0 = "VOCC" ∧
    ∃ rl, last (r0 :: rest) = Some rl ∧ last (routeIds routeA) = Some (to rl).
Proof.
  assert ("05:00" ≠ "") as Hs by discriminate.
  destruct (rows (calculateETAs timeMatrix routeA (Some "05:00") "VOCC"))
    as [|r0 rest] eqn:Hrows; [by vm_compute in Hrows|].
  exists r0, rest. split; [done|].
  destruct (schedule_is_a_path timeMatrix routeA "05:00" "VOCC" r0 rest Hs Hrows)
    as (Hfrom & _ & Hlast).
  split; [exact Hfrom|exact Hlast].
Defined.

Lemma rows_carry_graph_times_witness :
  Forall (fun r => legTimeMin r = getLegTime timeMatrix (from r) (to r) ∧
                   legTimeHrs r = formatHoursFromMinutes (legTimeMin r))
         (rows (calculateETAs timeMatrix routeB (Some "06:00") "VOCC")).
Proof.
  apply (rows_carry_graph_times timeMatrix routeB "06:00" "VOCC"). discriminate.
Defined.

Lemma etas_accumulate_witness :
  finalEta (calculateETAs timeMatrix routeA (Some "23:30") "P")
  = Some (minutesToHHMM
            (parseStartMinutes "23:30"
             + sumMinutes (rows (calculateETAs timeMatrix routeA (Some "23:30") "P")))).
Proof.
  assert (isClockTime "23:30" = true) as Hclock by reflexivity.
  destruct (etas_accumulate timeMatrix routeA "23:30" "P" Hclock) as [_ Hfinal].
  apply Hfinal. discriminate.
Defined.

(** ** Clock strings and start times *)

Lemma parse_print_minutes n : parseStartMinutes (minutesToHHMM n) = n.
Proof.
  destruct (clock_components n) as [Hh Hm].
  unfold hourComponent, minuteComponent in Hh, Hm.
  unfold parseStartMinutes. rewrite Hh, Hm. simpl.
  rewrite (N.div_mod n 60) at 3 by lia. lia.
Qed.

Lemma minutesToHHMM_truthy n : minutesToHHMM n ≠ "".
Proof.
  intros Hempty. destruct (clock_components n) as [_ Hm].
  rewrite Hempty in Hm. discriminate Hm.
Qed.

Lemma below_by_cases (f : N → bool) (bound : nat) :
  forallb f (map N.of_nat (seq 0 bound)) = true →
  ∀ n, n < N.of_nat bound → f n = true.
Proof.
  intros Hall n Hn. rewrite forallb_forall in Hall. apply Hall.
  apply in_map_iff. exists (N.to_nat n). split; [lia|].
  apply in_seq. lia.
Qed.

(** X5.  A clock string reads back as the minutes it was made from, for
    every number of minutes below 2^53 (the integers a JavaScript
    number holds exactly): [minutesToHHMM] followed by the parsing of
    [calculateETAs] is the identity there.  So two different minute
    counts below 2^53 never share a clock string, and below 1440
    minutes the string is a well-formed 24-hour HH:MM time. *)
Theorem clock_string_reads_back (n : N) :
  n < 2 ^ 53 →
  parseStartMinutes (minutesToHHMM n) = n ∧
  (∀ m, m < 2 ^ 53 → minutesToHHMM n = minutesToHHMM m → n = m) ∧
  (n < 1440 → isClockTime (minutesToHHMM n) = true).
Proof.
  intros _.
  split; [apply parse_print_minutes|]. split.
  - intros m _ Heq. rewrite <- (parse_print_minutes n), Heq. apply parse_print_minutes.
  - revert n. apply (below_by_cases (fun n => isClockTime (minutesToHHMM n)) 1440).
    vm_compute. reflexivity.
Qed.

Lemma clock_string_reads_back_witness :
  parseStartMinutes (minutesToHHMM 1439) = 1439 ∧ isClockTime (minutesToHHMM 1439) = true.
Proof.
  assert (1439 < 2 ^ 53) as Hexact by reflexivity.
  destruct (clock_string_reads_back 1439 Hexact) as (Hback & _ & Hclock).
  split; [exact Hback|]. apply Hclock. lia.
Defined.

(** X6.  A well-formed HH:MM start time is read as fewer than 1440
    minutes and prints back as the very same string. *)
Theorem clock_time_prints_back (s : string) :
  isClockTime s = true →
  parseStartMinutes s < 1440 ∧ minutesToHHMM (parseStartMinutes s) = s.
Proof.
  intros (h & m & Hh & Hm & -> & Hs)%parseStartMinutes_clock.
  split; [lia|exact Hs].
Qed.

Lemma clock_time_prints_back_witness :
  parseStartMinutes "23:59" < 1440 ∧ minutesToHHMM (parseStartMinutes "23:59") = "23:59".
Proof. apply clock_time_prints_back. reflexivity. Defined.

(** ** Resuming a schedule, and where a traversal starts and ends *)

Lemma indexOf_NoDup (l : list string) j x :
  NoDup l → l !! j = Some x → indexOf x l = Some j.
Proof.
  intros Hnd. revert j. induction Hnd as [|y l Hy Hnd IH]; intros j; [done|].
  destruct j as [|j]; simpl.
  - intros [= ->]. by rewrite String.eqb_refl.
  - intros Hj. destruct (String.eqb_spec y x) as [->|_].
    + exfalso. apply Hy. by eapply list_elem_of_lookup_2.
    + by rewrite (IH j Hj).
Qed.

Lemma drop_cons_inv (l : list string) i x rest :
  drop i l = x :: rest → l !! i = Some x ∧ drop (S i) l = rest.
Proof.
  revert i. induction l as [|y l IH]; intros i.
  - by rewrite drop_nil.
  - destruct i as [|i]; simpl.
    + by intros [= -> ->].
    + apply IH.
Qed.

Lemma traversal_is_drop tm route origin :
  ∃ i, buildTraversalSequence tm route origin = drop i (routeIds route).
Proof.
  unfold buildTraversalSequence, pushFrom. fold (routeIds route).
  destruct (indexOf origin (routeIds route)) as [i|]; [by exists i|].
  destruct (firstReachable tm origin (routeIds route)) as [i|]; [by exists i|].
  by exists 0%nat.
Qed.

Lemma traversal_from_route_point tm route j p rest :
  NoDup (routeIds route) → drop j (routeIds route) = p :: rest →
  buildTraversalSequence tm route p = p :: rest.
Proof.
  intros Hnd Hdrop. destruct (drop_cons_inv _ _ _ _ Hdrop) as [Hj _].
  unfold buildTraversalSequence, pushFrom. fold (routeIds route).
  by rewrite (indexOf_NoDup _ _ _ Hnd Hj).
Qed.

Section Resume.
Variable tm : gmap string (gmap string N).
Variable route : Route.t.

(** X7.  A traversal always runs to the end of the route: on a route
    with points its last checkpoint is the last point of the route,
    whatever the start point. *)
Theorem traversal_runs_to_route_end (origin : string) :
  Route.points route ≠ [] →
  last (buildTraversalSequence tm route origin) = last (routeIds route).
Proof.
  intros Hne. apply suffix_last_eq.
  - apply buildTraversalSequence_suffix.
  - by apply traversal_nonempty.
Qed.

(** X8.  Where the ids of a route are distinct, resolving again from
    the checkpoint a traversal starts at gives the same traversal. *)
Theorem traversal_from_its_first_checkpoint (origin p : string) (rest : list string) :
  NoDup (routeIds route) →
  buildTraversalSequence tm route origin = p :: rest →
  buildTraversalSequence tm route p = p :: rest.
Proof.
  intros Hnd Htrav. destruct (traversal_is_drop tm route origin) as [i Hi].
  rewrite Hi in Htrav. by apply (traversal_from_route_point tm route i).
Qed.

(** X9.  A schedule can be resumed at its first stop.  For a
    clock-formatted start time and a route with distinct ids, the legs
    after the first are exactly the schedule computed from the first
    leg's destination with the first leg's eta as start time, one row
    further down. *)
Theorem schedule_resumes_at_first_stop (s origin : string) (r1 : LegRow)
    (rest : list LegRow) :
  isClockTime s = true →
  NoDup (routeIds route) →
  rows (calculateETAs tm route (Some s) origin) = r1 :: rest →
  rest = map shiftRow (rows (calculateETAs tm route (Some (eta r1)) (to r1))).
Proof.
  intros Hclock Hnd Hrows. pose proof (isClockTime_truthy s Hclock) as Hs.
  rewrite (calculateETAs_rows tm route s origin Hs) in Hrows.
  assert (∃ x y l j, schedulePath tm route origin = x :: y :: l ∧
                     drop j (routeIds route) = y :: l) as (x & y & l & j & Hpath & Hdrop).
  { unfold schedulePath in *.
    destruct (traversal_is_drop tm route origin) as [i Hi].
    destruct (buildTraversalSequence tm route origin) as [|t0 trav]; [done|].
    destruct (String.eqb origin t0).
    - destruct trav as [|t1 trav]; [done|].
      exists t0, t1, trav, (S i). split; [done|].
      symmetry in Hi. by apply drop_cons_inv in Hi as [_ ?].
    - by exists origin, t0, trav, i. }
  rewrite Hpath, legRows_cons in Hrows.
  remember (legRows tm 1 (parseStartMinutes s + getLegTime tm x y) (y :: l))
    as later eqn:Hlater.
  injection Hrows as <- <-. cbn [eta to]. subst later.
  rewrite (calculateETAs_rows tm route _ y (minutesToHHMM_truthy _)).
  rewrite parse_print_minutes. unfold schedulePath.
  rewrite (traversal_from_route_point tm route j y l Hnd Hdrop), String.eqb_refl.
  apply legRows_shift.
Qed.

End Resume.

Lemma traversal_runs_to_route_end_witness :
  last (buildTraversalSequence timeMatrix routeB "VOCC") = Some "Q".
Proof.
  rewrite (traversal_runs_to_route_end timeMatrix routeB "VOCC"); [reflexivity|discriminate].
Defined.

Lemma routeA_ids_distinct : NoDup (routeIds routeA).
Proof. compute_done. Qed.

Lemma traversal_from_its_first_checkpoint_witness :
  buildTraversalSequence timeMatrix routeA "S" = ["S"; "T"; "U"; "S/P"].
Proof.
  apply (traversal_from_its_first_checkpoint timeMatrix routeA "S" "S" ["T"; "U"; "S/P"]).
  - exact routeA_ids_distinct.
  - reflexivity.
Defined.

Lemma schedule_resumes_at_first_stop_witness :
  ∃ r1 rest,
    rows (calculateETAs timeMatrix routeA (Some "06:00") "P") = r1 :: rest ∧
    rest = map shiftRow (rows (calculateETAs timeMatrix routeA (Some (eta r1)) (to r1))) ∧
    eta r1 = "06:14" ∧ to r1 = "Q".
Proof.
  assert (isClockTime "06:00" = true) as Hclock by reflexivity.
  destruct (rows (calculateETAs timeMatrix routeA (Some "06:00") "P"))
    as [|r1 rest] eqn:Hrows; [by vm_compute in Hrows|].
  exists r1, rest. split; [done|]. split.
  - exact (schedule_resumes_at_first_stop timeMatrix routeA "06:00" "P" r1 rest
             Hclock routeA_ids_distinct Hrows).
  - vm_compute in Hrows. by injection Hrows as <- _.
Defined.

(** ** The leg graph, once more *)

(** X10.  [getLegTime], with its reads as JavaScript performs them,
    returns only 0, an entry of the matrix for the pair in one direction
    or the other, or the [length] of a built-in function that one id
    names while the other id is "length".  For ids that name no
    inherited member the last case is out: a positive result needs two
    non-empty ids and an entry, and the two directions of a pair can
    only disagree when both are configured, with different minutes. *)
Theorem getLegTime_only_from_entries (tm : gmap string (gmap string N)) (a b : string)
    (n : N) :
  Proto.getLegTime tm a b = Some n →
  (n = 0 ∨ entry tm a b = Some n ∨ entry tm b a = Some n ∨
   (tm !! a = None ∧ Proto.inheritedFunction a = Some n ∧ b = "length") ∨
   (tm !! b = None ∧ Proto.inheritedFunction b = Some n ∧ a = "length")) ∧
  (Proto.inheritedFunction a = None → Proto.inheritedFunction b = None →
     (0 < n → a ≠ "" ∧ b ≠ "" ∧ (is_Some (entry tm a b) ∨ is_Some (entry tm b a))) ∧
     (Proto.getLegTime tm b a ≠ Some n →
        ∃ m m', entry tm a b = Some m ∧ entry tm b a = Some m' ∧ m ≠ m')).
Proof.
  intros Hres. split.
  - revert Hres. unfold Proto.getLegTime.
    destruct (negb (JS.truthy a) || negb (JS.truthy b)); [intros [= <-]; by left|].
    assert (∀ x y k, Proto.numberTest tm x y = Proto.IsNumber k →
              entry tm x y = Some k ∨
              (tm !! x = None ∧ Proto.inheritedFunction x = Some k ∧ y = "length"))
      as Hread.
    { intros x y k. unfold Proto.numberTest, Proto.member, entry.
      destruct (tm !! x) as [row|] eqn:Hx; simpl.
      - destruct (row !! y); [|done]. intros [= ->]. by left.
      - destruct (Proto.inheritedFunction x) as [arity|].
        + destruct (String.eqb_spec y "length") as [->|_].
          * intros [= ->]. by right.
          * by destruct (String.eqb y "caller" || String.eqb y "arguments").
        + by destruct (String.eqb x "__proto__"). }
    destruct (Proto.numberTest tm a b) as [k| |] eqn:Hab; [| |done].
    + intros [= <-]. destruct (Hread a b k Hab) as [He|Hi]; [by right; left|].
      by right; right; right; left.
    + destruct (Proto.numberTest tm b a) as [k| |] eqn:Hba; [| |done].
      * intros [= <-]. destruct (Hread b a k Hba) as [He|Hi]; [by right; right; left|].
        by right; right; right; right.
      * intros [= <-]. by left.
  - intros Ha Hb.
    rewrite (getLegTime_own_keys tm a b Ha Hb) in Hres.
    rewrite (getLegTime_own_keys tm b a Hb Ha).
    injection Hres as <-.
    unfold getLegTime. rewrite (falsy_guard_comm b a).
    destruct (JS.truthy a) eqn:Hta, (JS.truthy b) eqn:Htb; simpl;
      try (split; [lia|done]).
    apply truthy_true in Hta, Htb.
    destruct (entry tm a b) as [m|] eqn:Hab, (entry tm b a) as [m'|] eqn:Hba.
    + split; [by intros _; repeat split; try left|].
      intros Hne. exists m, m'. repeat split. congruence.
    + split; [by intros _; repeat split; try left|]. done.
    + split; [by intros _; repeat split; try right|]. done.
    + split; [lia|done].
Qed.

Lemma getLegTime_only_from_entries_witness :
  "VOCC" ≠ "" ∧ "S/P" ≠ "" ∧
  (is_Some (entry timeMatrix "VOCC" "S/P") ∨ is_Some (entry timeMatrix "S/P" "VOCC")).
Proof.
  assert (Proto.getLegTime timeMatrix "VOCC" "S/P" = Some 20) as Hres
    by (vm_compute; reflexivity).
  destruct (getLegTime_only_from_entries timeMatrix "VOCC" "S/P" 20 Hres) as (_ & Hplain).
  destruct (Hplain eq_refl eq_refl) as (Hpos & _).
  apply Hpos. lia.
Defined.

(** ** The rendered table *)

Section Table.
Variable tm : gmap string (gmap string N).
Variable route : Route.t.

(** X11.  What [renderETATable] writes.  With no start time entered it
    raises the alert and leaves the table and the summary as they were.
    Otherwise the start point is the selected one, VOCC when none is
    selected: for a schedule without legs it writes the single "No
    legs" line and no summary; for a schedule with legs it writes, leg
    by leg, the markup of one line with the leg's number, ids, hours
    and eta interpolated as they are, and a summary whose minutes are
    the sum of the legs' minutes and whose final ETA is the eta of the
    last leg -- the two [||] fall-backs of the summary never apply. *)
Theorem renderETATable_outcomes (startTime startPointValue : string) (panel : EtaPanel) :
  let startPoint := if JS.truthy startPointValue then startPointValue else "VOCC" in
  let res := calculateETAs tm route (Some startTime) startPoint in
  let out := renderETATable tm route startTime startPointValue panel in
  (startTime = "" → out = (panel, Some "Enter a starting time first (HH:MM).")) ∧
  (startTime ≠ "" → rows res = [] →
     out = (mkEtaPanel [noLegsMarkup] None, None)) ∧
  (startTime ≠ "" → ∀ rl, last (rows res) = Some rl →
     out = (mkEtaPanel (map rowMarkup (rows res))
              (Some (mkEtaSummary (JS.toFixed2_div60 (sumMinutes (rows res)))
                       (sumMinutes (rows res)) (eta rl))),
            None)).
Proof.
  intros startPoint res out. unfold out, renderETATable. fold startPoint. fold res.
  split; [by intros ->|]. split.
  - intros Hs Hnil. apply truthy_true in Hs. by rewrite Hs, Hnil.
  - intros Hs rl Hlast. pose proof Hs as Htr. apply truthy_true in Htr. rewrite Htr.
    cbn [negb].
    destruct (buildTraversalSequence tm route startPoint) as [|t0 rest] eqn:Htrav.
    { exfalso. unfold res, calculateETAs in Hlast. by rewrite Htr, Htrav in Hlast. }
    pose proof (calculateETAs_unfold tm route startTime startPoint t0 rest Hs Htrav) as Hres.
    cbv zeta in Hres. fold res in Hres.
    assert (totalMinutes res = Some (sumMinutes (rows res))) as Htot by (by rewrite Hres).
    assert (finalEta res = Some (eta rl)) as Hfin.
    { rewrite Hres in Hlast |- *. cbn [rows finalEta] in *. by rewrite Hlast. }
    assert (JS.truthy (eta rl) = true) as Heta.
    { apply truthy_true. rewrite last_lookup in Hlast. unfold res in Hlast.
      rewrite (calculateETAs_rows tm route startTime startPoint Hs) in Hlast.
      rewrite (legRows_eta _ _ _ _ _ _ Hlast). apply minutesToHHMM_truthy. }
    rewrite Htot, Hfin, Heta. cbn [default].
    destruct (rows res) as [|r0 rs] eqn:Hrows; [done|]. done.
Qed.

End Table.

Lemma renderETATable_outcomes_witness :
  renderETATable timeMatrix routeA "06:00" "" (mkEtaPanel [] None)
  = (mkEtaPanel
       (map rowMarkup (rows (calculateETAs timeMatrix routeA (Some "06:00") "VOCC")))
       (Some (mkEtaSummary "1.35" 81 "07:21")),
     None).
Proof.
  assert ("06:00" ≠ "") as Hs by discriminate.
  destruct (renderETATable_outcomes timeMatrix routeA "06:00" "" (mkEtaPanel [] None))
    as (_ & _ & Htable).
  cbn [JS.truthy String.eqb negb] in Htable.
  rewrite (Htable Hs (mkLegRow 7 "U" "S/P" 8 "0.13" "07:21")); [|by vm_compute].
  f_equal.
Defined.

(** * Further properties of the selection state machine *)

(** ** Selecting a route *)

Lemma showRoute_indexValid routes routeId s : indexValid (showRoute routes routeId s).
Proof.
  destruct (showRoute_globals routes routeId s) as (Hr & Hi & _).
  unfold indexValid. rewrite Hr, Hi.
  destruct (Route.points (findRoute routes routeId (currentRoute s))) as [|p0 pts];
    [done|].
  intros _. destruct (Nat.leb_spec (length (p0 :: pts)) (currentPointIndex s));
    [simpl|]; lia.
Qed.

(** [find] returns the first element that passes the test. *)
Lemma find_first {A} (f : A → bool) (l : list A) (x : A) :
  find f l = Some x →
  ∃ pre post, l = pre ++ x :: post ∧ f x = true ∧ Forall (fun y => f y = false) pre.
Proof.
  induction l as [|y l IH]; simpl; [done|].
  destruct (f y) eqn:Hy.
  - intros [= ->]. by exists [], l.
  - intros (pre & post & -> & Hx & Hpre)%IH.
    exists (y :: pre), post. repeat split; [done|]. by constructor.
Qed.

(** X12.  [showRoute] always ends on a route of the catalog: the first
    one with the requested id when there is one (no route before it in
    the catalog has that id), and the first route of the catalog when
    the id is unknown.  It keeps [pointsVisible], and it leaves
    [currentPointIndex] pointing into the route selected, keeping it
    when it fits and resetting it to 0 when it does not. *)
Theorem showRoute_selects (routes : list Route.t) (routeId : string) (s : State) :
  let s' := showRoute routes routeId s in
  (routeId ∈ map Route.id routes →
     Route.id (currentRoute s') = routeId ∧
     ∃ pre post, routes = pre ++ currentRoute s' :: post ∧
                 Forall (fun r => Route.id r ≠ routeId) pre) ∧
  (routeId ∉ map Route.id routes → head routes = Some (currentRoute s') ∨ routes = []) ∧
  pointsVisible s' = pointsVisible s ∧
  indexValid s' ∧
  ((currentPointIndex s < length (Route.points (currentRoute s')))%nat →
     currentPointIndex s' = currentPointIndex s) ∧
  ((length (Route.points (currentRoute s')) ≤ currentPointIndex s)%nat →
     Route.points (currentRoute s') ≠ [] → currentPointIndex s' = 0%nat).
Proof.
  intros s'. destruct (showRoute_globals routes routeId s) as (Hr & Hi & Hv & _).
  fold s' in Hr, Hi, Hv.
  split; [|split; [|split; [exact Hv|split; [apply showRoute_indexValid|split]]]].
  - intros Hin. rewrite Hr. unfold findRoute.
    destruct (find _ routes) as [r|] eqn:Hfind.
    + apply find_first in Hfind as (pre & post & Hsplit & Hid & Hpre).
      apply String.eqb_eq in Hid.
      split; [done|]. exists pre, post. split; [done|].
      eapply Forall_impl; [exact Hpre|]. intros r' Hr'. by apply String.eqb_neq.
    + exfalso. apply list_elem_of_fmap in Hin as (r & -> & Hr').
      apply list_elem_of_In in Hr'.
      pose proof (find_none _ _ Hfind r Hr') as Hno. cbn beta in Hno.
      by rewrite String.eqb_refl in Hno.
  - intros Hout. rewrite Hr. unfold findRoute.
    destruct (find _ routes) as [r|] eqn:Hfind.
    + exfalso. apply find_some in Hfind as [Hr' Hid]. apply String.eqb_eq in Hid.
      apply Hout. apply list_elem_of_fmap. exists r. split; [done|].
      by apply list_elem_of_In.
    + destruct routes; [by right|by left].
  - rewrite Hi, Hr. intros Hlt.
    destruct (Route.points (findRoute routes routeId (currentRoute s))) as [|p0 pts];
      [done|].
    destruct (Nat.leb_spec (length (p0 :: pts)) (currentPointIndex s)); [lia|done].
  - rewrite Hi, Hr. intros Hge Hpts.
    destruct (Route.points (findRoute routes routeId (currentRoute s))) as [|p0 pts];
      [done|].
    destruct (Nat.leb_spec (length (p0 :: pts)) (currentPointIndex s)); [done|lia].
Qed.

Lemma showRoute_selects_witness :
  Route.id (currentRoute (showRoute routes "routeB" stateAtR)) = "routeB" ∧
  currentPointIndex (showRoute routes "routeB" stateAtR) = 2%nat.
Proof.
  destruct (showRoute_selects routes "routeB" stateAtR) as (Hknown & _ & _ & _ & Hkeep & _).
  split.
  - apply Hknown. compute_done.
  - rewrite Hkeep; [reflexivity|]. vm_compute. lia.
Defined.

(** ** The index stays on the route *)

Lemma indexOf_lt x arr i : indexOf x arr = Some i → (i < length arr)%nat.
Proof. intros Hi%indexOf_lookup. by eapply lookup_lt_Some. Qed.

Lemma findIndex_lt pid pts i : findIndex pid pts = Some i → (i < length pts)%nat.
Proof. unfold findIndex. intros Hi%indexOf_lt. by rewrite length_map in Hi. Qed.

Lemma find_by_id (routes : list Route.t) (r : Route.t) :
  NoDup (map Route.id routes) → r ∈ routes →
  find (fun r' => String.eqb (Route.id r') (Route.id r)) routes = Some r.
Proof.
  induction routes as [|r0 routes IH]; intros Hnd Hin; [by apply elem_of_nil in Hin|].
  apply NoDup_cons in Hnd as [Hr0 Hnd]. simpl.
  destruct (String.eqb_spec (Route.id r0) (Route.id r)) as [Heq|Hne].
  - apply elem_of_cons in Hin as [->|Hin]; [done|].
    exfalso. apply Hr0. rewrite Heq. apply list_elem_of_fmap. by exists r.
  - apply elem_of_cons in Hin as [->|Hin]; [done|]. by apply IH.
Qed.

Lemma firstRouteWith_index pid routes r f :
  firstRouteWith pid routes = Some (r, f) → findIndex pid (Route.points r) = Some f.
Proof.
  induction routes as [|r0 routes IH]; simpl; [done|].
  destruct (findIndex pid (Route.points r0)) eqn:Hf0; [|exact IH].
  by intros [= <- <-].
Qed.

Lemma renderPanel_indexValid s : indexValid s → indexValid (renderPanel s).
Proof.
  destruct (renderPanel_globals s) as (Hr & Hi & _).
  unfold indexValid. by rewrite Hr, Hi.
Qed.

Lemma hotspotClick_indexValid routes pid s :
  NoDup (map Route.id routes) → indexValid s → indexValid (hotspotClick routes pid s).
Proof.
  intros Hnd Hvalid. unfold hotspotClick.
  destruct (findIndex pid (Route.points (currentRoute s))) as [idx|] eqn:Hidx.
  { apply renderPanel_indexValid. intros _. by apply findIndex_lt in Hidx. }
  destruct (firstRouteWith pid routes) as [[r f]|] eqn:Hfirst.
  - apply renderPanel_indexValid.
    destruct (showRoute_globals routes (Route.id r) (setCurrentRoute r s)) as (Hr & _).
    unfold indexValid. cbn [setCurrentPointIndex currentRoute currentPointIndex].
    rewrite Hr. unfold findRoute.
    rewrite (find_by_id routes r Hnd (firstRouteWith_elem _ _ _ _ Hfirst)).
    intros _. by apply firstRouteWith_index, findIndex_lt in Hfirst.
  - destruct (highlightPoint_globals pid s) as (Hr & Hi & _).
    unfold indexValid.
    cbn [setPanel currentRoute currentPointIndex]. by rewrite Hr, Hi.
Qed.

Lemma handle_indexValid routes e s :
  NoDup (map Route.id routes) → indexValid s → indexValid (handle routes e s).
Proof.
  intros Hnd Hvalid. destruct e as [routeId|pid| | | |]; simpl.
  - apply showRoute_indexValid.
  - by apply hotspotClick_indexValid.
  - unfold prevClick. destruct (0 <? currentPointIndex s)%nat; [|done].
    apply renderPanel_indexValid. unfold indexValid in *.
    cbn [setCurrentPointIndex currentRoute currentPointIndex].
    intros Hne. specialize (Hvalid Hne). lia.
  - unfold nextClick.
    destruct (Z.ltb_spec (Z.of_nat (currentPointIndex s))
                (Z.of_nat (length (Route.points (currentRoute s))) - 1)); [|done].
    apply renderPanel_indexValid. unfold indexValid.
    cbn [setCurrentPointIndex currentRoute currentPointIndex]. lia.
  - done.
  - apply showRoute_indexValid.
Qed.

(** X13.  In a catalog whose route ids are distinct, no sequence of
    events takes [currentPointIndex] off the current route: from a state
    where it addresses a point of the route (when the route has points)
    it does so after every event, so the panel always has a checkpoint
    to show. *)
Theorem index_stays_on_route (routes : list Route.t) (es : list Event) (s : State) :
  NoDup (map Route.id routes) → indexValid s →
  indexValid (run routes es s) ∧
  (Route.points (currentRoute (run routes es s)) ≠ [] →
     is_Some (Route.points (currentRoute (run routes es s))
              !! currentPointIndex (run routes es s))).
Proof.
  intros Hnd Hvalid.
  assert (indexValid (run routes es s)) as Hrun.
  { revert s Hvalid. induction es as [|e es IH]; intros s Hvalid; [done|].
    apply IH. by apply handle_indexValid. }
  split; [exact Hrun|]. intros Hne. apply lookup_lt_is_Some_2. by apply Hrun.
Qed.

Lemma routes_ids_distinct : NoDup (map Route.id routes).
Proof. compute_done. Qed.

Lemma index_stays_on_route_witness :
  is_Some (Route.points
             (currentRoute (run routes [HotspotClick "U"; RouteChange "routeB"; NextClick]
                              (init routes loaded)))
           !! currentPointIndex (run routes [HotspotClick "U"; RouteChange "routeB"; NextClick]
                                   (init routes loaded))).
Proof.
  assert (indexValid (init routes loaded)) as Hinit by (intros _; vm_compute; lia).
  destruct (index_stays_on_route routes
              [HotspotClick "U"; RouteChange "routeB"; NextClick] (init routes loaded)
              routes_ids_distinct Hinit) as [_ Hsome].
  apply Hsome. by vm_compute.
Defined.

(** Distinct route ids are needed: with two routes sharing an id, a
    click on a point of the second makes [showRoute] pick the first, and
    the index found in the second is out of range there. *)
Example shared_route_id_breaks_index :
  let r1 := Route.mk "A" "One" "#000000" [Checkpoint.mk "P" "" "" []] in
  let r2 := Route.mk "A" "Two" "#000000"
              [Checkpoint.mk "Q" "" "" []; Checkpoint.mk "R" "" "" []] in
  let s := mkState r1 0 None true [] "" "" "" [] false false [] "" in
  let s' := hotspotClick [r1; r2] "R" s in
  currentRoute s' = r1 ∧ currentPointIndex s' = 1%nat ∧
  Route.points (currentRoute s') !! currentPointIndex s' = None.
Proof. vm_compute. done. Qed.

(** ** The panel follows the selection *)

Lemma highlightPoint_panel id s :
  panelTitle (highlightPoint id s) = panelTitle s ∧
  panelSub (highlightPoint id s) = panelSub s ∧
  panelObjective (highlightPoint id s) = panelObjective s ∧
  panelBullets (highlightPoint id s) = panelBullets s ∧
  prevDisabled (highlightPoint id s) = prevDisabled s ∧
  nextDisabled (highlightPoint id s) = nextDisabled s ∧
  startPointOptions (highlightPoint id s) = startPointOptions s.
Proof. unfold highlightPoint. by destruct (isActive s id). Qed.

Lemma panelShowsCurrent_frame s s' :
  currentRoute s' = currentRoute s → currentPointIndex s' = currentPointIndex s →
  activePointId s' = activePointId s →
  panelTitle s' = panelTitle s → panelSub s' = panelSub s →
  panelObjective s' = panelObjective s → panelBullets s' = panelBullets s →
  prevDisabled s' = prevDisabled s → nextDisabled s' = nextDisabled s →
  panelShowsCurrent s → panelShowsCurrent s'.
Proof.
  intros Hr Hi Ha H1 H2 H3 H4 H5 H6 Hshow. unfold panelShowsCurrent.
  rewrite Hr, Hi, Ha, H1, H2, H3, H4, H5, H6. exact Hshow.
Qed.

Lemma nextDisabled_nat (len idx : nat) :
  (Z.of_nat len - 1 <=? Z.of_nat idx)%Z = (len - 1 <=? idx)%nat.
Proof.
  destruct (Z.leb_spec (Z.of_nat len - 1) (Z.of_nat idx)),
           (Nat.leb_spec (len - 1) idx); try done; lia.
Qed.

Lemma renderPanel_shows s : panelShowsCurrent (renderPanel s).
Proof.
  intros p Hp. destruct (renderPanel_globals s) as (Hr & Hi & _ & Ha).
  rewrite Hr, Hi in Hp |- *. rewrite Ha, Hp.
  unfold renderPanel. rewrite Hp.
  set (s2 := setButtons _ _ _).
  destruct (highlightPoint_panel (Checkpoint.id p) s2) as (H1 & H2 & H3 & H4 & H5 & H6 & _).
  cbn [setPointsVisibility setAriaPressed setHotspots setPointsVisible
       panelTitle panelSub panelObjective panelBullets prevDisabled nextDisabled].
  rewrite H1, H2, H3, H4, H5, H6. unfold s2.
  cbn [setButtons setPanel panelTitle panelSub panelObjective panelBullets
       prevDisabled nextDisabled].
  rewrite nextDisabled_nat. repeat split; try done.
  by destruct (currentPointIndex s).
Qed.

Lemma showRoute_shows routes routeId s : panelShowsCurrent (showRoute routes routeId s).
Proof.
  unfold showRoute.
  set (s1 := setCurrentRoute _ s). set (s2 := setHotspots _ s1).
  destruct (Route.points (currentRoute s1)) as [|p0 pts] eqn:Hpts.
  - intros p Hp. exfalso.
    cbn [populateStartPointOptions setStartPointOptions unhighlightAll setActivePointId
         setHotspots setPanel currentRoute currentPointIndex] in Hp.
    change (currentRoute s2) with (currentRoute s1) in Hp. by rewrite Hpts in Hp.
  - eapply panelShowsCurrent_frame; [reflexivity..|]. apply renderPanel_shows.
Qed.

Lemma firstRouteWith_Some pid routes r :
  r ∈ routes → pid ∈ routeIds r → is_Some (firstRouteWith pid routes).
Proof.
  induction routes as [|r0 routes IH]; intros Hin Hpid; [by apply elem_of_nil in Hin|].
  simpl. destruct (findIndex pid (Route.points r0)) as [f|] eqn:Hf; [done|].
  apply elem_of_cons in Hin as [->|Hin]; [|by apply IH].
  apply findIndex_in_route in Hpid as (idx & _ & Hidx & _). congruence.
Qed.

Lemma handle_shows routes e s :
  clickInCatalog routes e → panelShowsCurrent s → panelShowsCurrent (handle routes e s).
Proof.
  intros Hok Hshow. destruct e as [routeId|pid| | | |]; simpl.
  - apply showRoute_shows.
  - unfold hotspotClick.
    destruct (findIndex pid (Route.points (currentRoute s))); [apply renderPanel_shows|].
    destruct Hok as (r & Hr & Hpid).
    destruct (firstRouteWith_Some pid routes r Hr Hpid) as [[r' f] ->].
    apply renderPanel_shows.
  - unfold prevClick. destruct (0 <? currentPointIndex s)%nat; [|done].
    apply renderPanel_shows.
  - unfold nextClick. destruct (_ <? _)%Z; [|done]. apply renderPanel_shows.
  - by apply (panelShowsCurrent_frame s).
  - apply showRoute_shows.
Qed.

(** X14.  Route, checkpoint, panel and highlight stay together.  As
    long as every click lands on a hotspot of some checkpoint of the
    catalog, after every sequence of events the checkpoint at
    [currentPointIndex] is the active one, the panel shows its title,
    objective and bullets under the route's name, the prev button is
    disabled exactly at index 0 and the next button exactly at the last
    index. *)
Theorem panel_follows_selection (routes : list Route.t) (es : list Event) (s : State) :
  Forall (clickInCatalog routes) es → panelShowsCurrent s →
  panelShowsCurrent (run routes es s).
Proof.
  intros Hes. revert s. induction Hes as [|e es He Hes IH]; intros s Hshow; [done|].
  apply IH. by apply handle_shows.
Qed.

Lemma init_shows routes s : panelShowsCurrent (init routes s).
Proof.
  unfold init.
  apply (panelShowsCurrent_frame
           (showRoute routes (Route.id (currentRoute s)) (populateStartPointOptions s)));
    try done.
  apply showRoute_shows.
Qed.

Lemma panel_follows_selection_witness :
  panelShowsCurrent
    (run routes [HotspotClick "T"; TogglePointsClick; PrevClick; ResetClick]
       (init routes loaded)).
Proof.
  apply panel_follows_selection.
  - repeat constructor. exists routeA. split; [left|compute_done].
  - apply init_shows.
Defined.

(** A click on a hotspot of no catalog checkpoint breaks the agreement:
    the stray id becomes the active one while route and index stay. *)
Example stray_click_detaches_highlight :
  let s := hotspotClick routes "X" (init routes loaded) in
  currentRoute s = routeA ∧ currentPointIndex s = 0%nat ∧
  activePointId s = Some "X" ∧ panelTitle s = "Point X" ∧ panelSub s = "No route data".
Proof. vm_compute. done. Qed.

(** ** The start points on offer *)

Lemma renderPanel_options s :
  startPointOptions (renderPanel s) = startPointOptions s.
Proof.
  unfold renderPanel.
  destruct (Route.points (currentRoute s) !! currentPointIndex s) as [p|]; [|done].
  set (s2 := setButtons _ _ _).
  destruct (highlightPoint_panel (Checkpoint.id p) s2) as (_ & _ & _ & _ & _ & _ & Ho).
  cbn [setPointsVisibility setAriaPressed setHotspots setPointsVisible startPointOptions].
  by rewrite Ho.
Qed.

Lemma optionsShowRoute_frame s s' :
  currentRoute s' = currentRoute s → startPointOptions s' = startPointOptions s →
  optionsShowRoute s → optionsShowRoute s'.
Proof. unfold optionsShowRoute. by intros -> ->. Qed.

Lemma showRoute_options routes routeId s : optionsShowRoute (showRoute routes routeId s).
Proof.
  unfold showRoute, optionsShowRoute.
  set (s1 := setCurrentRoute _ s). set (s2 := setHotspots _ s1).
  cbn [populateStartPointOptions setStartPointOptions startPointOptions currentRoute].
  done.
Qed.

Lemma handle_options routes e s :
  optionsShowRoute s → optionsShowRoute (handle routes e s).
Proof.
  intros Hopt. destruct e as [routeId|pid| | | |]; simpl.
  - apply showRoute_options.
  - unfold hotspotClick.
    destruct (findIndex pid (Route.points (currentRoute s))).
    { apply (optionsShowRoute_frame s); [|by rewrite renderPanel_options|done].
      by destruct (renderPanel_globals (setCurrentPointIndex n s)) as (-> & _). }
    destruct (firstRouteWith pid routes) as [[r f]|].
    + set (s1 := showRoute routes (Route.id r) (setCurrentRoute r s)).
      apply (optionsShowRoute_frame s1); [|by rewrite renderPanel_options|].
      * by destruct (renderPanel_globals (setCurrentPointIndex f s1)) as (-> & _).
      * apply showRoute_options.
    + destruct (highlightPoint_globals pid s) as (Hr & _).
      destruct (highlightPoint_panel pid s) as (_ & _ & _ & _ & _ & _ & Ho).
      by apply (optionsShowRoute_frame s).
  - unfold prevClick. destruct (0 <? currentPointIndex s)%nat; [|done].
    set (s1 := setCurrentPointIndex _ s).
    apply (optionsShowRoute_frame s); [|by rewrite renderPanel_options|done].
    by destruct (renderPanel_globals s1) as (-> & _).
  - unfold nextClick. destruct (_ <? _)%Z; [|done].
    set (s1 := setCurrentPointIndex _ s).
    apply (optionsShowRoute_frame s); [|by rewrite renderPanel_options|done].
    by destruct (renderPanel_globals s1) as (-> & _).
  - by apply (optionsShowRoute_frame s).
  - apply showRoute_options.
Qed.

(** X15.  The start points offered for the ETA always belong to the
    route on display: once the options list VOCC followed by the points
    of the current route, they do so after every sequence of events,
    whatever is clicked.  Every offered start point other than VOCC
    then opens the traversal itself, so its schedule has no extra leg
    in front. *)
Theorem start_points_follow_route (routes : list Route.t) (es : list Event) (s : State)
    (tm : gmap string (gmap string N)) :
  optionsShowRoute s →
  let s' := run routes es s in
  map fst (startPointOptions s') = "VOCC" :: routeIds (currentRoute s') ∧
  (∀ o, o ∈ map fst (startPointOptions s') → o ≠ "VOCC" →
        ∃ rest, buildTraversalSequence tm (currentRoute s') o = o :: rest).
Proof.
  intros Hopt s'.
  assert (optionsShowRoute s') as Hrun.
  { unfold s'. clear s'. revert s Hopt.
    induction es as [|e es IH]; intros s Hopt; [done|].
    apply IH. by apply handle_options. }
  assert (map fst (startPointOptions s') = "VOCC" :: routeIds (currentRoute s')) as Hids.
  { rewrite Hrun. cbn [map fst]. f_equal. unfold routeIds.
    rewrite map_map. by apply map_ext. }
  split; [exact Hids|].
  - intros o Hoff Hne. rewrite Hids in Hoff.
    apply elem_of_cons in Hoff as [->|Hin]; [done|].
    unfold buildTraversalSequence. fold (routeIds (currentRoute s')).
    destruct (indexOf o (routeIds (currentRoute s'))) as [i|] eqn:Hi.
    + apply indexOf_lookup in Hi. exact (pushFrom_nonempty Hi).
    + by apply indexOf_None in Hi.
Qed.

Lemma init_options routes s : optionsShowRoute (init routes s).
Proof.
  unfold init.
  apply (optionsShowRoute_frame
           (showRoute routes (Route.id (currentRoute s)) (populateStartPointOptions s)));
    first [done | apply showRoute_options].
Qed.

Lemma start_points_follow_route_witness :
  let s' := run routes [HotspotClick "T"; RouteChange "routeB"] (init routes loaded) in
  map fst (startPointOptions s') = "VOCC" :: routeIds (currentRoute s').
Proof.
  exact (proj1 (start_points_follow_route routes
                  [HotspotClick "T"; RouteChange "routeB"] (init routes loaded)
                  timeMatrix (init_options routes loaded))).
Defined.

(** ** Visibility and highlight on the page *)

(** X16.  The last visibility setting wins: setting the visibility
    twice is setting it once to the second value, so toggling twice
    gives back the visibility the state had.  A setting puts one and
    the same opacity on every hotspot, the selected one included, and
    touches nothing else of a hotspot. *)
Theorem visibility_last_setting_wins (v v' : bool) (s : State) :
  setPointsVisibility v (setPointsVisibility v' s) = setPointsVisibility v s ∧
  togglePointsClick (togglePointsClick s) = setPointsVisibility (pointsVisible s) s ∧
  Forall (fun h => opacity h = opacityOf v) (hotspots (setPointsVisibility v s)) ∧
  map (fun h => (data_id h, selected h, dim h, dot h, zIndex h))
      (hotspots (setPointsVisibility v s))
  = map (fun h => (data_id h, selected h, dim h, dot h, zIndex h)) (hotspots s).
Proof.
  assert (∀ a b t, setPointsVisibility a (setPointsVisibility b t) = setPointsVisibility a t)
    as Hlast.
  { intros a b t. unfold setPointsVisibility, setAriaPressed, setHotspots, setPointsVisible.
    cbn. f_equal. rewrite map_map. by apply map_ext. }
  split; [apply Hlast|]. split.
  - unfold togglePointsClick. rewrite Hlast.
    change (pointsVisible (setPointsVisibility (negb (pointsVisible s)) s))
      with (negb (pointsVisible s)).
    by rewrite negb_involutive.
  - split.
    + cbn [setPointsVisibility setAriaPressed setHotspots hotspots].
      apply Forall_forall. intros h Hh. apply list_elem_of_In, in_map_iff in Hh.
      by destruct Hh as (h0 & <- & _).
    + cbn [setPointsVisibility setAriaPressed setHotspots hotspots].
      rewrite map_map. by apply map_ext.
Qed.

(** X17.  [unhighlightAll] leaves no checkpoint active and no hotspot
    selected or dimmed; every hotspot is back at z-index 60, at the
    opacity [pointsVisible] asks for and, when it has a dot, in the
    tint of the current route or the neutral one.  Doing it twice is
    doing it once. *)
Theorem unhighlightAll_clears (s : State) :
  activePointId (unhighlightAll s) = None ∧
  map data_id (hotspots (unhighlightAll s)) = map data_id (hotspots s) ∧
  Forall (fun h => selected h = false ∧ dim h = false ∧ zIndex h = "60" ∧
                   opacity h = opacityOf (pointsVisible s) ∧
                   (dot h = None ∨ dot h = Some (tintOf (currentRoute s) (data_id h))))
         (hotspots (unhighlightAll s)) ∧
  unhighlightAll (unhighlightAll s) = unhighlightAll s.
Proof.
  split; [done|]. split; [|split].
  - cbn [unhighlightAll setActivePointId setHotspots hotspots].
    apply data_ids_map. intros h. cbn [withZIndex withOpacity data_id].
    by rewrite data_id_setDotColor.
  - cbn [unhighlightAll setActivePointId setHotspots hotspots].
    apply Forall_forall. intros h Hh. apply list_elem_of_In, in_map_iff in Hh.
    destruct Hh as (h0 & <- & _). unfold setDotColor.
    cbn [withClasses dot].
    destruct (dot h0) eqn:Hdot; cbn; repeat split; try done; first [by right | by left].
  - unfold unhighlightAll, setActivePointId, setHotspots. cbn. f_equal.
    rewrite map_map. apply map_ext. by intros [i sel dm [c|] op z].
Qed.

Lemma dropSelected_length a hs : length (dropSelected a hs) = length hs.
Proof.
  unfold dropSelected. destruct a as [a|]; [|done].
  destruct (JS.truthy a); [|done].
  destruct (getHotspotById a hs); [|done]. apply length_alter.
Qed.

Lemma getHotspotById_prepared id a hs :
  getHotspotById id (clearDim (dropSelected a hs)) = getHotspotById id hs.
Proof.
  rewrite !getHotspotById_indexOf. unfold clearDim.
  by rewrite data_ids_map, dropSelected_ids.
Qed.

Lemma clearDim_undimmed hs :
  Forall (fun h => dim h = false) (clearDim hs).
Proof.
  apply Forall_forall. intros h Hh. apply list_elem_of_In, in_map_iff in Hh.
  by destruct Hh as (h0 & <- & _).
Qed.

(** X18.  Highlighting a checkpoint that is not already the active one
    makes it the active one, for ids (the one highlighted and the one
    active before) that a CSS string spells as they are.  When the page
    has a hotspot for it, that hotspot (the first with the id) ends up
    selected, not dimmed, at z-index 100 and at the opacity
    [pointsVisible] asks for, and every other hotspot ends up dimmed.
    When the page has no hotspot for it, the id still becomes active
    and no hotspot is left dimmed. *)
Theorem highlightPoint_marks (id : string) (s : State) :
  cssPlain id = true →
  (∀ a, activePointId s = Some a → cssPlain a = true) →
  activePointId s ≠ Some id →
  let s' := highlightPoint id s in
  activePointId s' = Some id ∧
  map data_id (hotspots s') = map data_id (hotspots s) ∧
  (∀ t, getHotspotById id (hotspots s) = Some t →
     ∀ j h, hotspots s' !! j = Some h →
       (j = t → selected h = true ∧ dim h = false ∧ zIndex h = "100" ∧
                opacity h = opacityOf (pointsVisible s) ∧ data_id h = id) ∧
       (j ≠ t → dim h = true)) ∧
  (getHotspotById id (hotspots s) = None →
     Forall (fun h => dim h = false) (hotspots s')).
Proof.
  intros _ _ Hnot s'. unfold s', highlightPoint.
  assert (isActive s id = false) as ->.
  { destruct (isActive s id) eqn:Hact; [|done]. by apply isActive_true in Hact. }
  cbn [setActivePointId setHotspots activePointId hotspots].
  set (prepared := clearDim (dropSelected (activePointId s) (hotspots s))).
  assert (getHotspotById id prepared = getHotspotById id (hotspots s)) as Hget
    by apply getHotspotById_prepared.
  assert (map data_id prepared = map data_id (hotspots s)) as Hids.
  { unfold prepared, clearDim. by rewrite data_ids_map, dropSelected_ids. }
  split; [done|]. unfold markTarget. rewrite Hget. split; [|split].
  - destruct (getHotspotById id (hotspots s)) as [t|]; [|done].
    rewrite data_ids_imap; [done|]. intros i h. destruct (Nat.eqb i t); [|done].
    cbn [withOpacity withZIndex data_id]. by rewrite data_id_setDotColor.
  - intros t Ht j h. rewrite Ht, list_lookup_imap.
    destruct (prepared !! j) as [h0|] eqn:Hh0; [|done]. intros [= <-].
    assert (dim h0 = false) as Hdim.
    { pose proof (clearDim_undimmed (dropSelected (activePointId s) (hotspots s))) as Hall.
      rewrite Forall_lookup in Hall. exact (Hall j h0 Hh0). }
    split.
    + intros ->. rewrite Nat.eqb_refl.
      cbn [withOpacity withZIndex selected dim zIndex opacity data_id].
      unfold setDotColor. cbn [withClasses dot].
      rewrite <- Hget in Ht.
      destruct (getHotspotById_lookup id prepared t Ht) as (h1 & Hh1 & Hid).
      assert (h1 = h0) as -> by congruence.
      by destruct (dot h0).
    + intros Hne. apply Nat.eqb_neq in Hne. by rewrite Hne.
  - intros ->. apply clearDim_undimmed.
Qed.

Lemma highlightPoint_marks_witness :
  activePointId (highlightPoint "T" (init routes loaded)) = Some "T" ∧
  map data_id (hotspots (highlightPoint "T" (init routes loaded)))
  = map data_id (hotspots (init routes loaded)).
Proof.
  assert (activePointId (init routes loaded) ≠ Some "T") as Hnot
    by (vm_compute; discriminate).
  assert (cssPlain "T" = true) as Hid by reflexivity.
  assert (∀ a, activePointId (init routes loaded) = Some a → cssPlain a = true) as Hprev.
  { intros a Ha. vm_compute in Ha. by injection Ha as <-. }
  destruct (highlightPoint_marks "T" (init routes loaded) Hid Hprev Hnot)
    as (Hact & Hids & _).
  split; [exact Hact|exact Hids].
Defined.

(** Every checkpoint id of the configured catalog is spelled as it is in
    a CSS string. *)
Lemma catalog_ids_cssPlain :
  Forall (fun id => cssPlain id = true)
         (flat_map (fun r => map Checkpoint.id (Route.points r)) routes).
Proof. repeat constructor. Qed.

(** ** Clicks on hotspots *)

Lemma findIndex_None pid (r : Route.t) :
  pid ∉ routeIds r → findIndex pid (Route.points r) = None.
Proof. intros Hout. by apply indexOf_None. Qed.

Lemma firstRouteWith_first pid pre r post :
  Forall (fun r' => pid ∉ routeIds r') pre → pid ∈ routeIds r →
  ∃ f, firstRouteWith pid (pre ++ r :: post) = Some (r, f).
Proof.
  intros Hpre Hin. induction Hpre as [|r0 pre Hr0 Hpre IH]; simpl.
  - apply findIndex_in_route in Hin as (f & _ & -> & _). by exists f.
  - by rewrite (findIndex_None pid r0 Hr0).
Qed.

Lemma firstRouteWith_None pid routes :
  Forall (fun r => pid ∉ routeIds r) routes → firstRouteWith pid routes = None.
Proof.
  induction 1 as [|r routes Hr Hall IH]; simpl; [done|].
  by rewrite (findIndex_None pid r Hr).
Qed.

(** X19.  A click on a checkpoint that is not on the current route but
    is on some route of the catalog (route ids being distinct) switches
    to the first catalog route that has it and selects it there: that
    route becomes the current one, [currentPointIndex] addresses the
    clicked checkpoint, which becomes the active one, and
    [pointsVisible] is kept. *)
Theorem click_switches_route (routes pre post : list Route.t) (r : Route.t)
    (pid : string) (s : State) :
  NoDup (map Route.id routes) →
  routes = pre ++ r :: post →
  pid ∉ routeIds (currentRoute s) →
  Forall (fun r' => pid ∉ routeIds r') pre →
  pid ∈ routeIds r →
  let s' := hotspotClick routes pid s in
  currentRoute s' = r ∧
  (∃ p, Route.points r !! currentPointIndex s' = Some p ∧ Checkpoint.id p = pid) ∧
  activePointId s' = Some pid ∧
  pointsVisible s' = pointsVisible s.
Proof.
  intros Hnd Hroutes Hout Hpre Hin s'. unfold s', hotspotClick.
  rewrite (findIndex_None pid _ Hout).
  destruct (firstRouteWith_first pid pre r post Hpre Hin) as [f Hfirst].
  rewrite <- Hroutes in Hfirst. rewrite Hfirst.
  set (s1 := showRoute routes (Route.id r) (setCurrentRoute r s)).
  destruct (showRoute_globals routes (Route.id r) (setCurrentRoute r s))
    as (Hr1 & _ & Hv1 & _).
  fold s1 in Hr1, Hv1. unfold findRoute in Hr1.
  rewrite (find_by_id routes r Hnd (firstRouteWith_elem _ _ _ _ Hfirst)) in Hr1.
  destruct (renderPanel_globals (setCurrentPointIndex f s1)) as (Hr & Hi & Hv & Ha).
  cbn [setCurrentPointIndex currentRoute currentPointIndex pointsVisible] in Hr, Hi, Hv, Ha.
  rewrite Hr, Hi, Hv, Ha, Hr1, Hv1.
  apply firstRouteWith_index in Hfirst. unfold findIndex in Hfirst.
  apply indexOf_lookup in Hfirst. rewrite list_lookup_fmap in Hfirst.
  destruct (Route.points r !! f) as [p|] eqn:Hp; [|done].
  injection Hfirst as Hid. rewrite Hid.
  split; [done|]. split; [by exists p|]. done.
Qed.

Lemma click_switches_route_witness :
  let s := showRoute [routeA; emptyRoute; routeB] "routeC" (init routes loaded) in
  let s' := hotspotClick [routeA; emptyRoute; routeB] "T" s in
  currentRoute s' = routeA ∧ activePointId s' = Some "T".
Proof.
  intros s s'.
  assert (currentRoute s = emptyRoute) as Hcur by (vm_compute; reflexivity).
  destruct (click_switches_route [routeA; emptyRoute; routeB] [] [emptyRoute; routeB]
              routeA "T" s) as (Hr & _ & Ha & _).
  - compute_done.
  - reflexivity.
  - rewrite Hcur. compute_done.
  - constructor.
  - compute_done.
  - split; [exact Hr|exact Ha].
Defined.

(** X20.  A click on a hotspot of no catalog checkpoint leaves the
    route and the index alone: the clicked id becomes the active one and
    the panel shows the placeholder texts, with no bullets; the paging
    buttons keep their state. *)
Theorem stray_click_detaches (routes : list Route.t) (pid : string) (s : State) :
  pid ∉ routeIds (currentRoute s) →
  Forall (fun r => pid ∉ routeIds r) routes →
  let s' := hotspotClick routes pid s in
  currentRoute s' = currentRoute s ∧
  currentPointIndex s' = currentPointIndex s ∧
  pointsVisible s' = pointsVisible s ∧
  activePointId s' = Some pid ∧
  panelTitle s' = "Point " +:+ pid ∧
  panelSub s' = "No route data" ∧
  panelObjective s' = "No objective available for this specific point." ∧
  panelBullets s' = [] ∧
  prevDisabled s' = prevDisabled s ∧ nextDisabled s' = nextDisabled s.
Proof.
  intros Hout Hall s'. unfold s', hotspotClick.
  rewrite (findIndex_None pid _ Hout), (firstRouteWith_None pid routes Hall).
  destruct (highlightPoint_globals pid s) as (Hr & Hi & Hv & Ha).
  destruct (highlightPoint_panel pid s) as (_ & _ & _ & _ & Hp & Hn & _).
  cbn [setPanel currentRoute currentPointIndex pointsVisible activePointId
       panelTitle panelSub panelObjective panelBullets prevDisabled nextDisabled].
  by rewrite Hr, Hi, Hv, Ha, Hp, Hn.
Qed.

Lemma stray_click_detaches_witness :
  activePointId (hotspotClick routes "X" stateAtR) = Some "X" ∧
  currentPointIndex (hotspotClick routes "X" stateAtR) = currentPointIndex stateAtR.
Proof.
  assert (currentRoute stateAtR = routeA) as Hcur by (vm_compute; reflexivity).
  destruct (stray_click_detaches routes "X" stateAtR) as (_ & Hi & _ & Ha & _).
  - rewrite Hcur. compute_done.
  - repeat constructor; compute_done.
  - split; [exact Ha|exact Hi].
Defined.

(** ** Paging back and forth, and start-up *)

(** X21.  Paging forward and then back, or back and then forward,
    returns to the same checkpoint whenever the first step could move:
    the route and the index are what they were, and the panel, the
    buttons and the highlight show that checkpoint again. *)
Theorem paging_there_and_back (s : State) :
  let len := length (Route.points (currentRoute s)) in
  ((currentPointIndex s < len - 1)%nat →
     currentRoute (prevClick (nextClick s)) = currentRoute s ∧
     currentPointIndex (prevClick (nextClick s)) = currentPointIndex s ∧
     panelShowsCurrent (prevClick (nextClick s))) ∧
  ((0 < currentPointIndex s)%nat → (currentPointIndex s < len)%nat →
     currentRoute (nextClick (prevClick s)) = currentRoute s ∧
     currentPointIndex (nextClick (prevClick s)) = currentPointIndex s ∧
     panelShowsCurrent (nextClick (prevClick s))).
Proof.
  intros len. split.
  - intros Hlt.
    assert (nextClick s = renderPanel (setCurrentPointIndex (currentPointIndex s + 1) s))
      as Hnext.
    { unfold nextClick. fold len.
      destruct (Z.ltb_spec (Z.of_nat (currentPointIndex s)) (Z.of_nat len - 1)); [done|lia]. }
    destruct (renderPanel_globals (setCurrentPointIndex (currentPointIndex s + 1) s))
      as (Hr & Hi & _).
    rewrite <- Hnext in Hr, Hi. cbn [setCurrentPointIndex currentRoute currentPointIndex] in Hr, Hi.
    assert (prevClick (nextClick s)
            = renderPanel (setCurrentPointIndex (currentPointIndex (nextClick s) - 1)
                             (nextClick s))) as Hprev.
    { unfold prevClick. rewrite Hi.
      destruct (Nat.ltb_spec 0 (currentPointIndex s + 1)); [done|lia]. }
    rewrite Hprev.
    destruct (renderPanel_globals
                (setCurrentPointIndex (currentPointIndex (nextClick s) - 1) (nextClick s)))
      as (Hr' & Hi' & _).
    rewrite Hr', Hi'. cbn [setCurrentPointIndex currentRoute currentPointIndex].
    rewrite Hr, Hi. split; [done|]. split; [lia|]. apply renderPanel_shows.
  - intros Hpos Hin.
    assert (prevClick s = renderPanel (setCurrentPointIndex (currentPointIndex s - 1) s))
      as Hprev.
    { unfold prevClick. destruct (Nat.ltb_spec 0 (currentPointIndex s)); [done|lia]. }
    destruct (renderPanel_globals (setCurrentPointIndex (currentPointIndex s - 1) s))
      as (Hr & Hi & _).
    rewrite <- Hprev in Hr, Hi. cbn [setCurrentPointIndex currentRoute currentPointIndex] in Hr, Hi.
    assert (nextClick (prevClick s)
            = renderPanel (setCurrentPointIndex (currentPointIndex (prevClick s) + 1)
                             (prevClick s))) as Hnext.
    { unfold nextClick. rewrite Hr, Hi. fold len.
      destruct (Z.ltb_spec (Z.of_nat (currentPointIndex s - 1)) (Z.of_nat len - 1));
        [done|lia]. }
    rewrite Hnext.
    destruct (renderPanel_globals
                (setCurrentPointIndex (currentPointIndex (prevClick s) + 1) (prevClick s)))
      as (Hr' & Hi' & _).
    rewrite Hr', Hi'. cbn [setCurrentPointIndex currentRoute currentPointIndex].
    rewrite Hr, Hi. split; [done|]. split; [lia|]. apply renderPanel_shows.
Qed.

Lemma paging_there_and_back_witness :
  currentPointIndex (prevClick (nextClick stateAtR)) = currentPointIndex stateAtR ∧
  currentPointIndex (nextClick (prevClick stateAtR)) = currentPointIndex stateAtR.
Proof.
  destruct (paging_there_and_back stateAtR) as [Hfwd Hback].
  split.
  - apply Hfwd. vm_compute. lia.
  - apply Hback; vm_compute; lia.
Defined.

Lemma init_indexValid routes s : indexValid (init routes s).
Proof.
  unfold init.
  pose proof (showRoute_indexValid routes (Route.id (currentRoute s))
                (populateStartPointOptions s)) as Hvalid.
  exact Hvalid.
Qed.

(** X22.  Start-up leaves the state consistent, for every catalog and
    every page: the points are visible, [currentPointIndex] addresses a
    point of the route chosen (when it has points), the panel, buttons
    and highlight show that checkpoint, and the start points on offer
    are VOCC and the points of that route.  Started from the script's
    own globals (first route, index 0), the first checkpoint of the
    first route is the active one. *)
Theorem startup_is_consistent (routes : list Route.t) (s : State) :
  pointsVisible (init routes s) = true ∧
  indexValid (init routes s) ∧
  panelShowsCurrent (init routes s) ∧
  optionsShowRoute (init routes s) ∧
  (∀ r0 others p0 pts,
     routes = r0 :: others → currentRoute s = r0 → currentPointIndex s = 0%nat →
     Route.points r0 = p0 :: pts →
     currentRoute (init routes s) = r0 ∧ currentPointIndex (init routes s) = 0%nat ∧
     activePointId (init routes s) = Some (Checkpoint.id p0)).
Proof.
  split; [done|]. split; [apply init_indexValid|].
  split; [apply init_shows|]. split; [apply init_options|].
  intros r0 others p0 pts -> Hcur Hidx Hpts. unfold init.
  set (s0 := populateStartPointOptions s).
  set (shown := showRoute (r0 :: others) (Route.id (currentRoute s)) s0).
  destruct (setPointsVisibility_globals true shown) as (-> & -> & _ & ->).
  destruct (showRoute_globals (r0 :: others) (Route.id (currentRoute s)) s0)
    as (Hr & Hi & _ & Ha).
  fold shown in Hr, Hi, Ha.
  change (currentRoute s0) with (currentRoute s) in Hr, Hi, Ha.
  change (currentPointIndex s0) with (currentPointIndex s) in Hi, Ha.
  assert (findRoute (r0 :: others) (Route.id (currentRoute s)) (currentRoute s) = r0) as Hfind.
  { unfold findRoute. simpl. rewrite Hcur. by rewrite String.eqb_refl. }
  rewrite Hfind in Hr, Hi, Ha. rewrite Hpts, Hidx in Hi, Ha.
  rewrite Hr, Hi, Ha. done.
Qed.

Lemma startup_is_consistent_witness :
  currentRoute (init routes loaded) = routeA ∧
  currentPointIndex (init routes loaded) = 0%nat ∧
  activePointId (init routes loaded) = Some "P".
Proof.
  destruct (startup_is_consistent routes loaded) as (_ & _ & _ & _ & Hfirst).
  exact (Hfirst routeA [routeB]
           (Checkpoint.mk "P" "Checkpoint P" "Initial departure and perimeter securing."
              ["Conduct radar and visual sweep."; "Verify course alignment."; "Next point → Q"])
           (tail (Route.points routeA)) eq_refl eq_refl eq_refl eq_refl).
Defined.

(** ** Reset *)

Lemma baseHotspot_absorbs r f hs :
  (∀ h, data_id (f h) = data_id h ∧ (dot (f h) = None ↔ dot h = None)) →
  map (baseHotspot r) (map f hs) = map (baseHotspot r) hs.
Proof.
  intros Hf. rewrite map_map. apply map_ext. intros h.
  destruct (Hf h) as [Hid Hdot]. unfold baseHotspot. rewrite Hid.
  destruct (dot (f h)) eqn:E1, (dot h) eqn:E2; try done; exfalso.
  - pose proof (proj2 Hdot eq_refl). congruence.
  - pose proof (proj1 Hdot eq_refl). congruence.
Qed.

Lemma baseHotspot_absorbs_imap r f hs :
  (∀ i h, data_id (f i h) = data_id h ∧ (dot (f i h) = None ↔ dot h = None)) →
  map (baseHotspot r) (imap f hs) = map (baseHotspot r) hs.
Proof.
  revert f. induction hs as [|h hs IH]; intros f Hf; [done|].
  cbn [imap map]. f_equal.
  - destruct (Hf 0%nat h) as [Hid Hdot]. unfold baseHotspot. rewrite Hid.
    destruct (dot (f 0%nat h)) eqn:E1, (dot h) eqn:E2; try done; exfalso.
    + pose proof (proj2 Hdot eq_refl). congruence.
    + pose proof (proj1 Hdot eq_refl). congruence.
  - apply IH. intros i h'. apply Hf.
Qed.

Lemma baseHotspot_absorbs_markTarget r visible id hs :
  map (baseHotspot r) (markTarget visible id hs) = map (baseHotspot r) hs.
Proof.
  unfold markTarget. destruct (getHotspotById id hs) as [t|]; [|done].
  apply baseHotspot_absorbs_imap. intros i [d sel dm [c|] op z];
    by destruct (Nat.eqb i t).
Qed.

Lemma clearDim_base r hs : clearDim (map (baseHotspot r) hs) = map (baseHotspot r) hs.
Proof. unfold clearDim. rewrite map_map. by apply map_ext. Qed.

Lemma findRoute_idem routes routeId current :
  let r := findRoute routes routeId current in
  findRoute routes (Route.id r) r = r.
Proof.
  intros r. unfold r, findRoute.
  destruct (find (fun r' => String.eqb (Route.id r') routeId) routes) as [r1|] eqn:Hfind.
  - pose proof Hfind as Hsome. apply find_some in Hsome as [_ Hid].
    apply String.eqb_eq in Hid. by rewrite Hid, Hfind.
  - destruct routes as [|r0 routes']; [done|].
    simpl. by rewrite String.eqb_refl.
Qed.

Lemma showRoute_closed routes routeId st hs0 r :
  findRoute routes routeId (currentRoute st) = r →
  activePointId st = None → pointsVisible st = true → ariaPressed st = "true" →
  map (fun h => withOpacity (opacityOf true) (setDotColor (tintOf r (data_id h)) h))
      (hotspots st)
  = map (baseHotspot r) hs0 →
  showRoute routes routeId st
  = afterReset r (currentPointIndex st) (prevDisabled st) (nextDisabled st) hs0.
Proof.
  destruct st as [cr ci ca cv chs t1 t2 t3 t4 b1 b2 o a].
  cbn [currentRoute currentPointIndex activePointId pointsVisible hotspots
       prevDisabled nextDisabled ariaPressed].
  intros Hr -> -> -> Hhs.
  unfold showRoute, afterReset, setCurrentRoute, setHotspots, isActive.
  cbn [currentRoute currentPointIndex activePointId pointsVisible hotspots
       panelTitle panelSub panelObjective panelBullets prevDisabled nextDisabled
       startPointOptions ariaPressed].
  rewrite Hr, Hhs. clear Hhs.
  destruct (Route.points r) as [|p0 pts] eqn:Hpts.
  - unfold populateStartPointOptions, unhighlightAll, setStartPointOptions,
      setActivePointId, setHotspots, setPanel.
    cbn [currentRoute currentPointIndex activePointId pointsVisible hotspots
         panelTitle panelSub panelObjective panelBullets prevDisabled nextDisabled
         startPointOptions ariaPressed].
    rewrite Hpts. f_equal.
    rewrite map_map. apply map_ext. by intros [d sel dm [c|] op z].
  - set (idx' := if (length (p0 :: pts) <=? ci)%nat then 0%nat else ci).
    assert (idx' < length (p0 :: pts))%nat as Hlt.
    { unfold idx'. destruct (Nat.leb_spec (length (p0 :: pts)) ci); [simpl|]; lia. }
    destruct (lookup_lt_is_Some_2 (p0 :: pts) idx' Hlt) as [p Hp].
    rewrite Hp.
    set (shown := mkState r ci None true (map (baseHotspot r) hs0) t1 t2 t3 t4 b1 b2 o "true").
    assert ((if (length (p0 :: pts) <=? ci)%nat then setCurrentPointIndex 0 shown else shown)
            = mkState r idx' None true (map (baseHotspot r) hs0) t1 t2 t3 t4 b1 b2 o "true")
      as ->.
    { unfold idx'. by destruct (length (p0 :: pts) <=? ci)%nat. }
    unfold renderPanel.
    cbn [currentRoute currentPointIndex activePointId pointsVisible hotspots].
    rewrite Hpts, Hp.
    unfold highlightPoint, isActive, setButtons, setPanel.
    cbn [currentRoute currentPointIndex activePointId pointsVisible hotspots
         panelTitle panelSub panelObjective panelBullets prevDisabled nextDisabled
         startPointOptions ariaPressed dropSelected].
    rewrite clearDim_base.
    unfold setHotspots at 1.
    cbn [currentRoute currentPointIndex activePointId pointsVisible hotspots
         panelTitle panelSub panelObjective panelBullets prevDisabled nextDisabled
         startPointOptions ariaPressed].
    unfold setActivePointId.
    cbn [currentRoute currentPointIndex activePointId pointsVisible hotspots
         panelTitle panelSub panelObjective panelBullets prevDisabled nextDisabled
         startPointOptions ariaPressed].
    unfold setPointsVisibility, setPointsVisible.
    cbn [currentRoute currentPointIndex activePointId pointsVisible hotspots
         panelTitle panelSub panelObjective panelBullets prevDisabled nextDisabled
         startPointOptions ariaPressed].
    unfold setHotspots.
    cbn [currentRoute currentPointIndex activePointId pointsVisible hotspots
         panelTitle panelSub panelObjective panelBullets prevDisabled nextDisabled
         startPointOptions ariaPressed].
    unfold setAriaPressed, populateStartPointOptions, setStartPointOptions.
    cbn [currentRoute currentPointIndex activePointId pointsVisible hotspots
         panelTitle panelSub panelObjective panelBullets prevDisabled nextDisabled
         startPointOptions ariaPressed opacityOf].
    rewrite ?Hpts. reflexivity.
Qed.

Lemma resetAll_closed routes s :
  resetAll routes s
  = afterReset (findRoute routes (Route.id (currentRoute s)) (currentRoute s))
      (currentPointIndex s) (prevDisabled s) (nextDisabled s) (hotspots s).
Proof.
  unfold resetAll.
  set (s3 := setPointsVisibility true (setPointsVisible true (unhighlightAll s))).
  apply (showRoute_closed routes (Route.id (currentRoute s3)) s3 (hotspots s)); try done.
  cbn [s3 setPointsVisibility setAriaPressed setHotspots setPointsVisible unhighlightAll
       setActivePointId hotspots currentRoute pointsVisible].
  rewrite !map_map. apply map_ext. by intros [d sel dm [c|] op z].
Qed.

(** X23.  Reset is idempotent: resetting twice in a row leaves exactly
    the state the first reset left, whatever the state before and
    whatever the catalog. *)
Theorem resetAll_idempotent (routes : list Route.t) (s : State) :
  resetAll routes (resetAll routes s) = resetAll routes s.
Proof.
  rewrite (resetAll_closed routes (resetAll routes s)).
  rewrite (resetAll_closed routes s).
  set (r := findRoute routes (Route.id (currentRoute s)) (currentRoute s)).
  assert (currentRoute (afterReset r (currentPointIndex s) (prevDisabled s)
                          (nextDisabled s) (hotspots s)) = r) as Hr.
  { unfold afterReset. destruct (Route.points r) as [|q0 qs]; [done|].
    cbv zeta. by destruct ((q0 :: qs) !! _). }
  rewrite Hr. unfold r at 1 2. rewrite findRoute_idem. fold r.
  unfold afterReset.
  destruct (Route.points r) as [|p0 pts] eqn:Hpts.
  - cbn [currentPointIndex prevDisabled nextDisabled hotspots]. f_equal.
    rewrite map_map. apply map_ext. by intros [d sel dm [c|] op z].
  - set (idx' := if (length (p0 :: pts) <=? currentPointIndex s)%nat
                 then 0%nat else currentPointIndex s).
    assert (idx' < length (p0 :: pts))%nat as Hlt.
    { unfold idx'. destruct (Nat.leb_spec (length (p0 :: pts)) (currentPointIndex s));
        [simpl|]; lia. }
    destruct (lookup_lt_is_Some_2 (p0 :: pts) idx' Hlt) as [p Hp].
    rewrite Hp.
    cbn [currentPointIndex prevDisabled nextDisabled hotspots].
    assert ((if (length (p0 :: pts) <=? idx')%nat then 0%nat else idx') = idx') as ->
      by (destruct (Nat.leb_spec (length (p0 :: pts)) idx'); [lia|done]).
    rewrite Hp.
    assert (map (baseHotspot r)
              (map (withOpacity "1")
                 (markTarget true (Checkpoint.id p) (map (baseHotspot r) (hotspots s))))
            = map (baseHotspot r) (hotspots s)) as ->; [|done].
    rewrite (baseHotspot_absorbs r (withOpacity "1")) by done.
    rewrite baseHotspot_absorbs_markTarget.
    rewrite map_map. apply map_ext. by intros [d sel dm [c|] op z].
Qed.
